(** * backend-skoda: the image proxy's helpers and handlers of [src/server.js]

    A shallow embedding of the parts of [server.js] that the specification
    talks about: prompt sanitising, the image encoder, the remote image
    publisher, the polling loop and output normalisation of
    [/api/generate-image], the in-memory result store with its per-key
    promise chain, the thumbnail archiver and the flat metadata file.

    JavaScript strings are modelled as [string] (sequences of 8-bit
    characters); [toLowerCase] and the [i] flag of regular expressions act
    on the ASCII letters, which is what they do on the ASCII constants the
    code compares with.  Calls that leave the process (network, disk, clock)
    are read from an explicit world: the outcome of the n-th call is a field
    of the world, so every theorem holds for every behaviour of the outside. *)

From Stdlib Require Import ZArith Lia List String Ascii Bool.
From stdpp Require Import base strings gmap list option pretty.
Import ListNotations.
Local Open Scope string_scope.
Local Open Scope Z_scope.

(** ** JavaScript string primitives *)

Module Str.

Definition is_upper (c : ascii) : bool :=
  let n := nat_of_ascii c in (65 <=? n)%nat && (n <=? 90)%nat.

(** [String.prototype.toLowerCase], one character. *)
Definition lower_ascii (c : ascii) : ascii :=
  if is_upper c then ascii_of_nat (nat_of_ascii c + 32) else c.

Fixpoint toLowerCase (s : string) : string :=
  match s with
  | EmptyString => EmptyString
  | String c s' => String (lower_ascii c) (toLowerCase s')
  end.

(** [s.startsWith(t)]. *)
Fixpoint startsWith (s t : string) {struct t} : bool :=
  match t, s with
  | EmptyString, _ => true
  | String _ _, EmptyString => false
  | String b t', String a s' => if decide (a = b) then startsWith s' t' else false
  end.

(** [s.includes(t)]. *)
Fixpoint includes (s t : string) : bool :=
  startsWith s t ||
  match s with
  | EmptyString => false
  | String _ s' => includes s' t
  end.

(** The class [\s] of regular expressions and of [trim], on 8-bit characters:
    tab, line feed, vertical tab, form feed, carriage return, space. *)
Definition is_space (c : ascii) : bool :=
  let n := nat_of_ascii c in ((9 <=? n)%nat && (n <=? 13)%nat) || (n =? 32)%nat.

Fixpoint trimStart (s : string) : string :=
  match s with
  | EmptyString => EmptyString
  | String c s' => if is_space c then trimStart s' else s
  end.

(** Drops the white space at the end: a character is kept when something
    that is not white space follows it or it is not white space itself. *)
Fixpoint trimEnd (s : string) : string :=
  match s with
  | EmptyString => EmptyString
  | String c s' =>
      match trimEnd s' with
      | EmptyString => if is_space c then EmptyString else String c EmptyString
      | r => String c r
      end
  end.

Definition trim (s : string) : string := trimEnd (trimStart s).

(** [s.replace(/\s+/g, ' ')]: every maximal run of white space becomes one
    space.  [in_run] says that the previous character was white space. *)
Fixpoint collapse_from (in_run : bool) (s : string) : string :=
  match s with
  | EmptyString => EmptyString
  | String c s' =>
      if is_space c
      then (if in_run then collapse_from true s' else String " " (collapse_from true s'))
      else String c (collapse_from false s')
  end.

Definition collapse_spaces (s : string) : string := collapse_from false s.

(** The match of [new RegExp(phrase, 'i')] at the start of [s]. *)
Definition startsWith_ci (s phrase : string) : bool :=
  startsWith (toLowerCase s) (toLowerCase phrase).

(** [s.replace(new RegExp(phrase, 'gi'), '')] for a phrase without
    metacharacters: scanning from the left, each match is dropped and the
    scan goes on after it.  [skip] counts the characters of the current match
    that are still to drop. *)
Fixpoint remove_ci_from (skip : nat) (phrase s : string) : string :=
  match s with
  | EmptyString => EmptyString
  | String c s' =>
      match skip with
      | S k => remove_ci_from k phrase s'
      | O =>
          if startsWith_ci s phrase
          then remove_ci_from (Nat.pred (String.length phrase)) phrase s'
          else String c (remove_ci_from O phrase s')
      end
  end.

Definition remove_ci (phrase s : string) : string :=
  match phrase with
  | EmptyString => s
  | _ => remove_ci_from O phrase s
  end.



End Str.

(** ** Prompt sanitising ([sanitizePrompt], server.js 242-272) *)

Module Sanitize.
Import Str.

Definition bannedPhrases : list string :=
  [ "nsfw"; "nude"; "naked"; "xxx"; "porn"; "explicit"; "sex";
    "erotic"; "adult content"; "obscene"; "sexual"; "intimate parts" ].

Definition qualityTerms : list string :=
  [ "high quality"; "detailed"; "high resolution"; "hd"; "4k"; "8k" ].

(** [qualityTerms.some(term => cleaned.toLowerCase().includes(term))]. *)
Definition hasQualityTerm (cleaned : string) : bool :=
  existsb (fun term => includes (toLowerCase cleaned) term) qualityTerms.

Definition sanitizePrompt (prompt : string) : string :=
  match prompt with
  | EmptyString => EmptyString
  | _ =>
      let cleaned := trim prompt in
      let cleaned := collapse_spaces cleaned in
      let cleaned := fold_left (fun acc phrase => remove_ci phrase acc) bannedPhrases cleaned in
      if hasQualityTerm cleaned then cleaned
      else cleaned +:+ ", high quality, detailed"
  end.







Example sanitizePrompt_banned :
  sanitizePrompt "  a NSFW   red   car in 4K " = "a  red car in 4K".
Proof. reflexivity. Qed.

Example sanitizePrompt_empty : sanitizePrompt "" = "".
Proof. reflexivity. Qed.

End Sanitize.

(** ** Results of code that may throw *)

(** [Ok v] is a normal return, [Throw msg] a thrown [Error] with its
    message. *)
Inductive Res (A : Type) : Type :=
| Ok (v : A)
| Throw (message : string).
Arguments Ok {A} v.
Arguments Throw {A} message.

(** ** Image encoder ([createDataUri] and [uploadToReplicateCDN],
       server.js 496-557) *)

Module Encoder.
Import Str.

Section WithNode.

(** Node's [path.extname] and [Buffer.prototype.toString('base64')]: library
    code, taken as it is. *)
Variable extname : string -> string.
Variable base64 : string -> string.

(** [fsPromises.readFile] on the local disk, which holds the content of each
    file that can be read: the content, or the error of a missing file. *)
Definition readFile (disk : gmap string string) (p : string) : Res string :=
  match disk !! p with
  | Some content => Ok content
  | None => Throw ("ENOENT: no such file or directory, open '" +:+ p +:+ "'")
  end.

(** The chain of comparisons on the lower-cased extension. *)
Definition mimeTypeOf (ext : string) : string :=
  if decide (ext = ".jpg" \/ ext = ".jpeg") then "image/jpeg"
  else if decide (ext = ".png") then "image/png"
  else if decide (ext = ".webp") then "image/webp"
  else "application/octet-stream".






End WithNode.

(** The extension is compared after lower-casing. *)
Example mime_upper_case_jpg : mimeTypeOf (toLowerCase ".JPG") = "image/jpeg".
Proof. reflexivity. Qed.

Example mime_gif : mimeTypeOf (toLowerCase ".gif") = "application/octet-stream".
Proof. reflexivity. Qed.

End Encoder.

(** ** Remote image publisher ([uploadToImageHost] and
       [getAccessibleImageUrl], server.js 298-444) *)

Module Publisher.

(** What an upload request to a hosting service comes back with: a body that
    carries a URL, a body without one, or a failed request. *)
Inductive PostOutcome :=
| PostUrl (url : string)
| PostNoData
| PostFails (message : string).

(** What a HEAD request comes back with. *)
Inductive HeadOutcome :=
| HeadStatus (status : Z)
| HeadFails (message : string).

(** The world of the publisher.  [requests] counts the outbound requests
    made so far; the answer to request number [n] is read from [imgbb],
    [imgcdn] or [head], and [now] is what [Date.now()] returns then. *)
Record World := mkWorld {
  disk : gmap string string;
  requests : nat;
  imgbb : nat -> PostOutcome;
  imgcdn : nat -> PostOutcome;
  head : nat -> string -> HeadOutcome;
  now : nat -> Z
}.

Definition set_disk (d : gmap string string) (w : World) : World :=
  mkWorld d (requests w) (imgbb w) (imgcdn w) (head w) (now w).

Definition bump (w : World) : World :=
  mkWorld (disk w) (S (requests w)) (imgbb w) (imgcdn w) (head w) (now w).

(** The publisher returns a URL string or the marker object
    [{ isBase64: true, data }]. *)
Inductive ImageRef :=
| UrlRef (url : string)
| Base64Ref (data : string).

(** Computations that read and change the world and may throw. *)
Definition M (A : Type) : Type := World -> Res A * World.

Definition ret {A} (a : A) : M A := fun w => (Ok a, w).
Definition throw {A} (message : string) : M A := fun w => (Throw message, w).
Definition bind {A B} (m : M A) (k : A -> M B) : M B :=
  fun w => match m w with
           | (Ok a, w') => k a w'
           | (Throw message, w') => (Throw message, w')
           end.
(** [try { body } catch (e) { handler e.message }]. *)
Definition try_catch {A} (body : M A) (handler : string -> M A) : M A :=
  fun w => match body w with
           | (Ok a, w') => (Ok a, w')
           | (Throw message, w') => handler message w'
           end.

Declare Scope pub_scope.
Delimit Scope pub_scope with pub.
Notation "x <- m ;; k" := (bind m (fun x => k))
  (at level 100, m at next level, right associativity) : pub_scope.
Notation "m ;;; k" := (bind m (fun _ => k))
  (at level 100, right associativity) : pub_scope.
Local Open Scope pub_scope.

Definition readFile (p : string) : M string :=
  fun w => (Encoder.readFile (disk w) p, w).

Definition copyFile (src dst : string) : M unit :=
  fun w => match disk w !! src with
           | Some content => (Ok tt, set_disk (<[dst := content]> (disk w)) w)
           | None => (Throw ("ENOENT: no such file or directory, copyfile '" +:+ src +:+ "'"), w)
           end.

Definition unlink (p : string) : M unit :=
  fun w => match disk w !! p with
           | Some _ => (Ok tt, set_disk (delete p (disk w)) w)
           | None => (Throw ("ENOENT: no such file or directory, unlink '" +:+ p +:+ "'"), w)
           end.

Definition date_now : M Z := fun w => (Ok (now w (requests w)), w).

(** [axios.post] to ImgBB; the result is [response.data.data.url] when
    [response.data && response.data.data] holds. *)
Definition post_imgbb : M (option string) :=
  fun w => match imgbb w (requests w) with
           | PostUrl url => (Ok (Some url), bump w)
           | PostNoData => (Ok None, bump w)
           | PostFails message => (Throw message, bump w)
           end.

(** [axios.post] to imgcdn.dev; the result is [imgcdnResponse.data.url] when
    [imgcdnResponse.data && imgcdnResponse.data.url] holds (an empty string
    is falsy). *)
Definition post_imgcdn : M (option string) :=
  fun w => match imgcdn w (requests w) with
           | PostUrl EmptyString => (Ok None, bump w)
           | PostUrl url => (Ok (Some url), bump w)
           | PostNoData => (Ok None, bump w)
           | PostFails message => (Throw message, bump w)
           end.

(** [axios.head]: with axios' default [validateStatus] a status outside
    200..299 rejects the request. *)
Definition axios_head (url : string) : M Z :=
  fun w => match head w (requests w) url with
           | HeadStatus status =>
               if (200 <=? status) && (status <? 300) then (Ok status, bump w)
               else (Throw "Request failed", bump w)
           | HeadFails message => (Throw message, bump w)
           end.

Section WithNode.

Variable base64 : string -> string.
Variable UPLOADS_DIR : string.

(** [path.join(UPLOADS_DIR, name)]. *)
Definition in_uploads (name : string) : string := UPLOADS_DIR +:+ "/" +:+ name.

(** [uploadToImageHost].  Each of the two inner blocks yields [Some url] when
    it returns from the function and [None] when control falls through. *)
Definition uploadToImageHost (localFilePath : string) : M ImageRef :=
  try_catch
    (fileBuffer <- readFile localFilePath ;;
     let base64Image := base64 fileBuffer in
     primary <- try_catch
       (response <- post_imgbb ;;
        match response with
        | Some imageUrl =>
            try_catch
              (status <- axios_head imageUrl ;;
               if (200 <=? status) && (status <? 300)
               then ret (Some imageUrl) else ret None)
              (fun _ => ret None)
        | None => ret None
        end)
       (fun _ => ret None) ;;
     match primary with
     | Some imageUrl => ret (UrlRef imageUrl)
     | None =>
         secondary <- try_catch
           (response <- post_imgcdn ;;
            match response with
            | Some imageUrl => ret (Some imageUrl)
            | None => ret None
            end)
           (fun _ => ret None) ;;
         match secondary with
         | Some imageUrl => ret (UrlRef imageUrl)
         | None => ret (Base64Ref ("data:image/jpeg;base64," +:+ base64Image))
         end
     end)
    (fun message => throw ("Failed to upload image: " +:+ message)).

(** [getAccessibleImageUrl]. *)
Definition getAccessibleImageUrl (localImagePath : string) : M ImageRef :=
  try_catch
    (imageUrl <- uploadToImageHost localImagePath ;;
     verified <-
       match imageUrl with
       | UrlRef url =>
           try_catch
             (status <- axios_head url ;;
              if (200 <=? status) && (status <? 300) then ret true else ret false)
             (fun _ => ret false)
       | Base64Ref _ => ret false
       end ;;
     if (verified : bool) then ret imageUrl
     else
       match imageUrl with
       | Base64Ref _ => ret imageUrl
       | UrlRef _ =>
           try_catch
             (t <- date_now ;;
              let tempFilename := "reliable_image_" +:+ pretty t +:+ ".jpg" in
              let tempFilePath := in_uploads tempFilename in
              copyFile localImagePath tempFilePath ;;;
              secondAttemptUrl <- uploadToImageHost tempFilePath ;;
              unlink tempFilePath ;;;
              ret secondAttemptUrl)
             (fun _ => ret imageUrl)
       end)
    (fun message => throw message).

(** The primary host fails: its request fails, or carries no data, or the
    URL it returns does not pass the HEAD verification that follows. *)
Definition primary_fails (w : World) : Prop :=
  forall n, match imgbb w n with
            | PostUrl url =>
                match head w (S n) url with
                | HeadStatus status => (200 <=? status) && (status <? 300) = false
                | HeadFails _ => True
                end
            | _ => True
            end.

(** The secondary host fails: no answer of it carries a URL. *)
Definition secondary_fails (w : World) : Prop :=
  forall n, match imgcdn w n with
            | PostUrl (String _ _) => False
            | _ => True
            end.

Lemma try_catch_total {A} (body : M A) (fallback : string -> A) (w : World) :
  exists a w', try_catch body (fun message => ret (fallback message)) w = (Ok a, w').
Proof.
  unfold try_catch, ret. destruct (body w) as [[a|message] w']; eauto.
Qed.

Lemma uploadToImageHost_readable (p content : string) (w : World) :
  disk w !! p = Some content ->
  exists r w', uploadToImageHost p w = (Ok r, w').
Proof.
  intros Hread. unfold uploadToImageHost.
  unfold try_catch at 1. unfold bind at 1.
  unfold readFile, Encoder.readFile. rewrite Hread.
  unfold bind at 1.
  destruct (try_catch_total
    (response <- post_imgbb ;;
     match response with
     | Some imageUrl =>
         try_catch
           (status <- axios_head imageUrl ;;
            if (200 <=? status) && (status <? 300)
            then ret (Some imageUrl) else ret None)
           (fun _ => ret None)
     | None => ret None
     end) (fun _ => None) w) as (primary & w1 & ->).
  destruct primary as [imageUrl|]; [unfold ret; eauto|].
  unfold bind at 1.
  destruct (try_catch_total
    (response <- post_imgcdn ;;
     match response with
     | Some imageUrl => ret (Some imageUrl)
     | None => ret None
     end) (fun _ => None) w1) as (secondary & w2 & ->).
  destruct secondary; unfold ret; eauto.
Qed.

Lemma uploadToImageHost_fallback (p content : string) (w : World) :
  disk w !! p = Some content ->
  primary_fails w -> secondary_fails w ->
  exists w', uploadToImageHost p w
             = (Ok (Base64Ref ("data:image/jpeg;base64," +:+ base64 content)), w').
Proof.
  intros Hread Hp Hs.
  unfold uploadToImageHost, try_catch, bind, readFile, Encoder.readFile,
    post_imgbb, post_imgcdn, axios_head, ret.
  rewrite Hread.
  pose proof (Hp (requests w)) as Hp0.
  destruct (imgbb w (requests w)) as [url| |message]; simpl.
  - destruct (head w (S (requests w)) url) as [status|message]; simpl.
    + rewrite Hp0. simpl.
      pose proof (Hs (S (S (requests w)))) as Hs0.
      destruct (imgcdn w (S (S (requests w)))) as [[|c u]| |m]; simpl; try tauto; eauto.
    + pose proof (Hs (S (S (requests w)))) as Hs0.
      destruct (imgcdn w (S (S (requests w)))) as [[|c u]| |m]; simpl; try tauto; eauto.
  - pose proof (Hs (S (requests w))) as Hs0.
    destruct (imgcdn w (S (requests w))) as [[|c u]| |m]; simpl; try tauto; eauto.
  - pose proof (Hs (S (requests w))) as Hs0.
    destruct (imgcdn w (S (requests w))) as [[|c u]| |m]; simpl; try tauto; eauto.
Qed.

(** C3, as the code has it: for a local file that can be read, the publisher
    does not throw, whatever the hosting services do: it returns a URL string
    or the marker object; and when the primary host fails (also by a URL that
    does not pass verification) and the secondary host fails, it returns the
    marker object with the file's base64 data. *)
Theorem publisher_returns_for_readable_file (p content : string) (w : World) :
  disk w !! p = Some content ->
  (exists r w', getAccessibleImageUrl p w = (Ok r, w')) /\
  (primary_fails w -> secondary_fails w ->
   exists w', getAccessibleImageUrl p w
              = (Ok (Base64Ref ("data:image/jpeg;base64," +:+ base64 content)), w')).
Proof.
  intros Hread. split.
  - unfold getAccessibleImageUrl.
    unfold try_catch at 1. unfold bind at 1.
    destruct (uploadToImageHost_readable p content w Hread) as (r & w1 & ->).
    destruct r as [url|data].
    + unfold bind at 1.
      destruct (try_catch_total
        (status <- axios_head url ;;
         if (200 <=? status) && (status <? 300) then ret true else ret false)
        (fun _ => false) w1) as (verified & w2 & ->).
      destruct verified; [unfold ret; eauto|].
      match goal with
      | |- context [try_catch ?b (fun _ => ret ?x) ?w] =>
          destruct (try_catch_total b (fun _ => x) w) as (r2 & w3 & ->)
      end.
      eauto.
    + unfold bind, ret. eauto.
  - intros Hp Hs. unfold getAccessibleImageUrl.
    unfold try_catch at 1. unfold bind at 1.
    destruct (uploadToImageHost_fallback p content w Hread Hp Hs) as (w1 & ->).
    unfold bind, ret. eauto.
Qed.

End WithNode.

(** A world in which every hosting request fails, over a given disk. *)
Definition offline (d : gmap string string) : World :=
  mkWorld d 0
    (fun _ => PostFails "connect ETIMEDOUT")
    (fun _ => PostFails "connect ETIMEDOUT")
    (fun _ _ => HeadFails "connect ETIMEDOUT")
    (fun _ => 1700000000000).

(** Stand-in for the base64 encoder in closed examples. *)
Definition plain (bytes : string) : string := bytes.

(** The claim of C3 fails for a path whose file cannot be read: the publisher
    throws. *)
Lemma publisher_throws_when_unreadable :
  getAccessibleImageUrl plain "/data/uploads" "/data/uploads/missing.png" (offline ∅)
  = (Throw "Failed to upload image: ENOENT: no such file or directory, open '/data/uploads/missing.png'",
     offline ∅).
Proof. reflexivity. Qed.

Lemma publisher_returns_for_readable_file_witness :
  disk (offline {[ "/data/uploads/car.png" := "PNGDATA" ]}) !! "/data/uploads/car.png"
    = Some "PNGDATA" /\
  exists w', getAccessibleImageUrl plain "/data/uploads" "/data/uploads/car.png"
               (offline {[ "/data/uploads/car.png" := "PNGDATA" ]})
             = (Ok (Base64Ref "data:image/jpeg;base64,PNGDATA"), w').
Proof.
  split; [apply lookup_singleton_eq|].
  apply (publisher_returns_for_readable_file plain "/data/uploads"
           "/data/uploads/car.png" "PNGDATA"
           (offline {[ "/data/uploads/car.png" := "PNGDATA" ]})).
  - apply lookup_singleton_eq.
  - intros n. exact I.
  - intros n. exact I.
Defined.

End Publisher.

(** ** JSON values as the handlers see them *)

Module Js.

#[warnings="-register-all"]
Inductive JValue :=
| JUndefined
| JNull
| JBool (b : bool)
| JNum (n : Z)
| JStr (s : string)
| JArr (items : list JValue)
| JObj (fields : list (string * JValue)).

(** JavaScript's truthiness.  Numbers are integers here: only the test
    against zero is used. *)
Definition truthy (v : JValue) : bool :=
  match v with
  | JUndefined | JNull => false
  | JBool b => b
  | JNum n => negb (n =? 0)
  | JStr EmptyString => false
  | JStr _ => true
  | JArr _ | JObj _ => true
  end.

Definition isArray (v : JValue) : bool :=
  match v with JArr _ => true | _ => false end.

Definition isString (v : JValue) : bool :=
  match v with JStr _ => true | _ => false end.

Fixpoint lookup_field (name : string) (fields : list (string * JValue)) : JValue :=
  match fields with
  | [] => JUndefined
  | (k, v) :: rest => if decide (k = name) then v else lookup_field name rest
  end.

(** [v.name] for a field name that no string, number, boolean or array has
    ([image], [images]); only read on truthy values. *)
Definition field (v : JValue) (name : string) : JValue :=
  match v with
  | JObj fields => lookup_field name fields
  | _ => JUndefined
  end.

(** [v.length]. *)
Definition length_of (v : JValue) : Res JValue :=
  match v with
  | JArr items => Ok (JNum (Z.of_nat (List.length items)))
  | JStr s => Ok (JNum (Z.of_nat (String.length s)))
  | JObj fields => Ok (lookup_field "length" fields)
  | JBool _ | JNum _ => Ok JUndefined
  | JUndefined | JNull =>
      Throw "Cannot read properties of undefined (reading 'length')"
  end.

(** [v[0]]. *)
Definition index0 (v : JValue) : Res JValue :=
  match v with
  | JArr (x :: _) => Ok x
  | JArr [] => Ok JUndefined
  | JStr (String c _) => Ok (JStr (String c EmptyString))
  | JStr EmptyString => Ok JUndefined
  | JObj fields => Ok (lookup_field "0" fields)
  | JBool _ | JNum _ => Ok JUndefined
  | JUndefined | JNull =>
      Throw "Cannot read properties of undefined (reading '0')"
  end.

End Js.

(** ** Polling loop of [/api/generate-image] (server.js 997-1037) *)

Module Polling.
Import Js.

(** A prediction as the remote API returns it. *)
Record Prediction := mkPrediction {
  id : string;
  status : string;
  error : option string;
  output : JValue
}.

(** What [replicate.predictions.get] does: it returns the prediction or
    throws. *)
Inductive Fetch :=
| FetchOk (p : Prediction)
| FetchFails (message : string).

Definition maxAttempts : nat := 300.

(** The variables of the loop, and [fetches], the number of calls of
    [replicate.predictions.get] made so far (one per one-second wait). *)
Record LoopState := mkLoop {
  result : Prediction;
  attempts : nat;
  fetches : nat
}.

Definition is_terminal (s : string) : bool :=
  bool_decide (s = "succeeded") || bool_decide (s = "failed").

Inductive Step :=
| Again (st : LoopState)
| Leave (st : LoopState)
| Raise (message : string) (st : LoopState).

(** One evaluation of the loop condition and, when it holds, of the body.
    [remote n] is what the n-th status fetch does.  In the catch block
    [continue] goes back to the condition without passing [attempts++]. *)
Definition loop_body (remote : nat -> Fetch) (st : LoopState) : Step :=
  if negb (is_terminal (status (result st))) && (attempts st <? maxAttempts)%nat
  then
    match remote (fetches st) with
    | FetchFails message =>
        if (attempts st <? maxAttempts - 1)%nat
        then Again (mkLoop (result st) (attempts st) (S (fetches st)))
        else Raise message (mkLoop (result st) (attempts st) (S (fetches st)))
    | FetchOk r => Again (mkLoop r (S (attempts st)) (S (fetches st)))
    end
  else Leave st.

(** How the loop stands after at most [fuel] passes. *)
Inductive Polled :=
| StillPolling (st : LoopState)
| LoopEnded (st : LoopState)
| LoopThrew (message : string) (st : LoopState).

Fixpoint poll (fuel : nat) (remote : nat -> Fetch) (st : LoopState) : Polled :=
  match fuel with
  | O => StillPolling st
  | S fuel' =>
      match loop_body remote st with
      | Again st' => poll fuel' remote st'
      | Leave st' => LoopEnded st'
      | Raise message st' => LoopThrew message st'
      end
  end.

Definition start (prediction : Prediction) : LoopState := mkLoop prediction 0 0.

(** The two checks after the loop (server.js 1026-1037). *)
Definition after_loop (st : LoopState) : Res Prediction :=
  if bool_decide (status (result st) = "failed") then
    let errorMessage :=
      match error (result st) with
      | Some (String c m) => String c m
      | _ => "Unknown error"
      end in
    Throw ("Prediction failed: " +:+ errorMessage)
  else if (maxAttempts <=? attempts st)%nat
          && negb (bool_decide (status (result st) = "succeeded")) then
    Throw ("Prediction timed out after 300 seconds. Last status: "
           +:+ status (result st))
  else Ok (result st).

(** A prediction that has just been created. *)
Definition starting (pid : string) : Prediction :=
  mkPrediction pid "starting" None JUndefined.

(** A remote whose every status fetch fails. *)
Definition unreachable : nat -> Fetch := fun _ => FetchFails "fetch failed".

Lemma poll_unreachable (fuel k : nat) (p : Prediction) :
  is_terminal (status p) = false ->
  poll fuel unreachable (mkLoop p 0 k) = StillPolling (mkLoop p 0 (fuel + k)).
Proof.
  intros Hp. revert k. induction fuel as [|fuel IH]; intros k; [reflexivity|].
  simpl poll. unfold loop_body. simpl result. simpl attempts. rewrite Hp.
  simpl. rewrite IH. do 2 f_equal. lia.
Qed.

(** Without fetch errors the loop is over after at most 300 fetches. *)
Lemma poll_ends_without_errors (remote : nat -> Fetch) (fuel : nat) (st : LoopState) :
  (forall n, exists p, remote n = FetchOk p) ->
  (attempts st <= maxAttempts)%nat ->
  (maxAttempts - attempts st < fuel)%nat ->
  exists st', poll fuel remote st = LoopEnded st' /\
              (fetches st' - fetches st <= maxAttempts - attempts st)%nat /\
              (is_terminal (status (result st')) = true \/ attempts st' = maxAttempts).
Proof.
  intros Hok. revert st. induction fuel as [|fuel IH]; intros st Hle Hfuel; [lia|].
  cbn [poll]. unfold loop_body.
  destruct (is_terminal (status (result st))) eqn:Ht; cbn [negb andb].
  - exists st. split; [reflexivity|]. split; [lia | now left].
  - destruct (attempts st <? maxAttempts)%nat eqn:Hlt.
    + apply Nat.ltb_lt in Hlt.
      destruct (Hok (fetches st)) as [p ->].
      destruct (IH (mkLoop p (S (attempts st)) (S (fetches st)))) as (st' & He & Hf & Hend).
      { cbn [attempts]. lia. }
      { cbn [attempts]. lia. }
      exists st'. split; [exact He|]. cbn [attempts fetches] in Hf.
      split; [lia | exact Hend].
    + apply Nat.ltb_ge in Hlt. exists st. split; [reflexivity|].
      split; [lia|]. right. lia.
Qed.

(** When the loop is left at the ceiling without a terminal status, the
    request is reported as timed out. *)
Lemma timed_out_at_ceiling (st : LoopState) :
  attempts st = maxAttempts ->
  is_terminal (status (result st)) = false ->
  after_loop st
  = Throw ("Prediction timed out after 300 seconds. Last status: "
           +:+ status (result st)).
Proof.
  intros Ha Ht. unfold after_loop, is_terminal in *.
  apply orb_false_iff in Ht as [Hs Hf]. rewrite Hf, Hs, Ha. reflexivity.
Qed.

(** C1: the claim that the loop always ends within the 300-attempt ceiling,
    even when every status fetch errors, fails on the code.  With a remote
    whose every fetch throws, after any number of passes the loop is still
    polling: [attempts] is still 0 (the [continue] of the catch block skips
    [attempts++]) and the number of fetches made equals the number of
    passes, so it grows past 300. *)
Theorem polling_never_ends_when_every_fetch_fails (fuel : nat) :
  poll fuel unreachable (start (starting "p1"))
  = StillPolling (mkLoop (starting "p1") 0 fuel).
Proof.
  unfold start. rewrite poll_unreachable; [|reflexivity].
  do 2 f_equal. lia.
Qed.

(** One failed fetch is enough to go past the ceiling: 301 fetches are made
    for a prediction that stays in [processing]. *)
Example one_error_then_processing :
  poll 400 (fun n => match n with
                     | O => FetchFails "socket hang up"
                     | _ => FetchOk (mkPrediction "p1" "processing" None JUndefined)
                     end)
       (start (starting "p1"))
  = LoopEnded (mkLoop (mkPrediction "p1" "processing" None JUndefined) 300 301).
Proof. vm_compute. reflexivity. Qed.

End Polling.

(** ** Output normalisation of [/api/generate-image] (server.js 1042-1065) *)

Module Output.
Import Js.

(** The chain of tests on [result.output] that fills [imageUrls]. *)
Definition collect (engineType : string) (output : JValue) : Res JValue :=
  if bool_decide (engineType = "character") then
    Ok (if isArray output then output else JArr [output])
  else if isArray output then Ok output
  else if truthy output && isString output then Ok (JArr [output])
  else if truthy output && truthy (field output "image") then
    Ok (JArr [field output "image"])
  else if truthy output && truthy (field output "images") then
    Ok (field output "images")
  else Throw "Unexpected output format from model".

(** [collect], then the test [!imageUrls.length]. *)
Definition normalizeOutput (engineType : string) (output : JValue) : Res JValue :=
  match collect engineType output with
  | Throw message => Throw message
  | Ok imageUrls =>
      match length_of imageUrls with
      | Throw message => Throw message
      | Ok len =>
          if truthy len then Ok imageUrls
          else Throw "No output images received from the model"
      end
  end.







Example normalize_images_field :
  normalizeOutput "edge"
    (JObj [("images", JArr [JStr "https://replicate.delivery/a.png";
                            JStr "https://replicate.delivery/b.png"])])
  = Ok (JArr [JStr "https://replicate.delivery/a.png";
              JStr "https://replicate.delivery/b.png"]).
Proof. reflexivity. Qed.

Example normalize_number_is_error :
  normalizeOutput "standard" (JNum 7) = Throw "Unexpected output format from model".
Proof. reflexivity. Qed.

End Output.

(** ** Result store ([predictionResults], [predictionLocks],
       [updatePredictionResult], [GET /api/prediction/:id];
       server.js 1187-1212 and 1304-1358) *)

Module ResultStore.
Import Js.

Record UserInfo := mkUser {
  user_id : string;
  user_email : string;
  user_name : string
}.

(** A stored record; [imageUrl] is [JUndefined] when the field is absent. *)
Record Result := mkResult {
  status : string;
  imageUrl : JValue;
  error : option string;
  startTime : option Z;
  completedTime : option Z;
  userInfo : option UserInfo
}.

(** [{ status: 'processing' }]. *)
Definition processing : Result :=
  mkResult "processing" JUndefined None None None None.

(** The two maps, and the promises created so far: promise number [n] is
    settled when [settled !! n = Some true]. *)
Record Store := mkStore {
  predictionResults : gmap string Result;
  predictionLocks : gmap string nat;
  settled : list bool
}.

Definition empty_store : Store := mkStore ∅ ∅ [].

(** *** The three synchronous stretches of [updatePredictionResult] *)

(** From the call to [await lock]: a missing lock is created settled; the
    result is the promise the call waits for. *)
Definition enter (id : string) (st : Store) : nat * Store :=
  match predictionLocks st !! id with
  | Some lock => (lock, st)
  | None =>
      let lock := List.length (settled st) in
      (lock, mkStore (predictionResults st)
                     (<[id := lock]> (predictionLocks st))
                     (settled st ++ [true]))
  end.

(** From the end of [await lock] to [await newLock]: the executor of
    [newLock] reads the current result and calls [updateFn] on it, then
    [newLock] becomes the lock of the key. *)
Definition begin_update (id : string) (st : Store) : nat * Result * Store :=
  let currentResult := default processing (predictionResults st !! id) in
  let newLock := List.length (settled st) in
  (newLock, currentResult,
   mkStore (predictionResults st)
           (<[id := newLock]> (predictionLocks st))
           (settled st ++ [false])).

(** From the end of [await updateFn(currentResult)] on: the updated result
    is stored and [newLock] is settled by the [finally] block.  When
    [updateFn] threw nothing is stored, [newLock] is settled all the same,
    and the rejection of the executor is seen by no caller. *)
Definition complete_update (id : string) (newLock : nat) (updated : Res Result)
    (st : Store) : Store :=
  mkStore (match updated with
           | Ok updatedResult => <[id := updatedResult]> (predictionResults st)
           | Throw _ => predictionResults st
           end)
          (predictionLocks st)
          (<[newLock := true]> (settled st)).

(** One call of [updatePredictionResult] with no other call in flight. *)
Definition updatePredictionResult (id : string) (updateFn : Result -> Res Result)
    (st : Store) : Store :=
  let '(_, st1) := enter id st in
  let '(newLock, currentResult, st2) := begin_update id st1 in
  complete_update id newLock (updateFn currentResult) st2.

(** *** Several calls in flight *)

(** Where a call of [updatePredictionResult] stands. *)
Inductive Pc :=
| NotCalled
| AwaitingLock (lock : nat)
| AwaitingUpdateFn (newLock : nat) (currentResult : Result)
| Returned.

Record Task := mkTask {
  key : string;
  updateFn : Result -> Res Result;
  pc : Pc
}.

(** The jobs the event loop runs, each to completion: the call of update
    [k], its continuation after [await lock], and its continuation after
    [await updateFn(currentResult)]. *)
Inductive Job :=
| Call (k : nat)
| AfterLock (k : nat)
| AfterUpdateFn (k : nat).

(** What an observer sees: the function of update [k] was called on a
    current result; the write of update [k] was stored. *)
Inductive Event :=
| RanUpdateFn (k : nat) (currentResult : Result)
| Stored (k : nat) (updated : Res Result).

Record Machine := mkMachine {
  store : Store;
  tasks : list Task;
  trace : list Event
}.

Definition set_pc (k : nat) (t : Task) (p : Pc) (tasks : list Task) : list Task :=
  <[k := mkTask (key t) (updateFn t) p]> tasks.

(** One job; [None] when the job cannot run in this state (a continuation
    runs only once the promise it waits for is settled). *)
Definition step (j : Job) (m : Machine) : option Machine :=
  match j with
  | Call k =>
      match tasks m !! k with
      | Some t =>
          match pc t with
          | NotCalled =>
              let '(lock, st) := enter (key t) (store m) in
              Some (mkMachine st (set_pc k t (AwaitingLock lock) (tasks m)) (trace m))
          | _ => None
          end
      | None => None
      end
  | AfterLock k =>
      match tasks m !! k with
      | Some t =>
          match pc t with
          | AwaitingLock lock =>
              match settled (store m) !! lock with
              | Some true =>
                  let '(newLock, currentResult, st) := begin_update (key t) (store m) in
                  Some (mkMachine st
                          (set_pc k t (AwaitingUpdateFn newLock currentResult) (tasks m))
                          (trace m ++ [RanUpdateFn k currentResult]))
              | _ => None
              end
          | _ => None
          end
      | None => None
      end
  | AfterUpdateFn k =>
      match tasks m !! k with
      | Some t =>
          match pc t with
          | AwaitingUpdateFn newLock currentResult =>
              let updated := updateFn t currentResult in
              Some (mkMachine (complete_update (key t) newLock updated (store m))
                              (set_pc k t Returned (tasks m))
                              (trace m ++ [Stored k updated]))
          | _ => None
          end
      | None => None
      end
  end.

Fixpoint run (jobs : list Job) (m : Machine) : option Machine :=
  match jobs with
  | [] => Some m
  | j :: rest =>
      match step j m with
      | Some m' => run rest m'
      | None => None
      end
  end.

(** A trace is serialized when every update's function runs only after the
    write of the update before it is stored: no function is called while
    another update is between its call of [updateFn] and its write. *)
Fixpoint serialized_from (running : option nat) (t : list Event) : bool :=
  match t with
  | [] => true
  | RanUpdateFn k _ :: rest =>
      match running with
      | None => serialized_from (Some k) rest
      | Some _ => false
      end
  | Stored k _ :: rest =>
      match running with
      | Some j => (j =? k)%nat && serialized_from None rest
      | None => false
      end
  end.

Definition serialized (t : list Event) : bool := serialized_from None t.

(** Two updates of one key that keep the fields they do not set, as
    [cur => ({ ...cur, status: 'completed', completedTime })] and
    [cur => ({ ...cur, userInfo })]. *)
Definition mark_completed (cur : Result) : Res Result :=
  Ok (mkResult "completed" (imageUrl cur) (error cur) (startTime cur)
               (Some 1700000000000) (userInfo cur)).

Definition attach_user (cur : Result) : Res Result :=
  Ok (mkResult (status cur) (imageUrl cur) (error cur) (startTime cur)
               (completedTime cur)
               (Some (mkUser "u1" "u1@example.com" "User One"))).

(** Update 0 (the slower one) and update 1, both for the key p1, on an empty
    store. *)
Definition two_updates : Machine :=
  mkMachine empty_store
            [mkTask "p1" mark_completed NotCalled;
             mkTask "p1" attach_user NotCalled]
            [].

(** The jobs in the order Node runs them when the two calls are issued one
    after the other in the same turn and update 0's function takes longer:
    both calls reach [await lock] on the same settled promise, the two
    continuations run in the order of the calls, then update 1's function
    settles first. *)
Definition issued_together : list Job :=
  [Call 0%nat; Call 1%nat; AfterLock 0%nat; AfterLock 1%nat;
   AfterUpdateFn 1%nat; AfterUpdateFn 0%nat].

(** The same two updates, the second issued after the first has returned. *)
Definition one_after_the_other : list Job :=
  [Call 0%nat; AfterLock 0%nat; AfterUpdateFn 0%nat;
   Call 1%nat; AfterLock 1%nat; AfterUpdateFn 1%nat].

(** *** [GET /api/prediction/:id] *)

(** [value.completedTime && (now - value.completedTime) > 3600000]. *)
Definition expired (now : Z) (value : Result) : bool :=
  match completedTime value with
  | Some t => negb (t =? 0) && (3600000 <? now - t)
  | None => false
  end.

(** A key keeps its lock when its entry is not deleted by the sweep. *)
Definition kept (now : Z) (results : gmap string Result) (k : string) : bool :=
  match results !! k with
  | Some value => negb (expired now value)
  | None => true
  end.

(** The sweep over [predictionResults.entries()]: every expired entry is
    deleted from both maps. *)
Definition cleanup (now : Z) (st : Store) : Store :=
  mkStore (filter (fun kv => expired now kv.2 = false) (predictionResults st))
          (filter (fun kv => kept now (predictionResults st) kv.1 = true)
                  (predictionLocks st))
          (settled st).

Inductive Body :=
| ErrorBody (error : string) (details : option string)
| PredictionBody (predictionId : string) (result : option Result).

Record Response := mkResponse { code : Z; body : Body }.

(** What one request did: its response, the store it left, and the ids it
    asked the remote API for. *)
Record Handled := mkHandled {
  response : Response;
  store_after : Store;
  fetched : list string
}.

(** The update functions of the handler; they do not read the current
    result.  [prediction.output[0]] throws on a missing output. *)
Definition completed_update (prediction : Polling.Prediction) (now : Z)
    (_ : Result) : Res Result :=
  match index0 (Polling.output prediction) with
  | Ok url => Ok (mkResult "completed" url None None (Some now) None)
  | Throw message => Throw message
  end.

Definition failed_update (prediction : Polling.Prediction) (now : Z)
    (_ : Result) : Res Result :=
  let message :=
    match Polling.error prediction with
    | Some (String c m) => String c m
    | _ => "Image generation failed"
    end in
  Ok (mkResult "failed" JUndefined (Some message) None (Some now) None).

(** The handler, run with no other request in flight.  [remote] is what
    [replicate.predictions.get] does, [now_update] and [now_cleanup] are the
    two readings of [Date.now()]. *)
Definition get_prediction (remote : string -> Polling.Fetch)
    (now_update now_cleanup : Z) (id : string) (st : Store) : Handled :=
  match predictionResults st !! id with
  | None =>
      mkHandled (mkResponse 404 (ErrorBody "Prediction not found" None)) st []
  | Some result =>
      if bool_decide (status result = "processing") then
        match remote id with
        | Polling.FetchFails message =>
            mkHandled
              (mkResponse 500 (ErrorBody "Failed to fetch prediction" (Some message)))
              st [id]
        | Polling.FetchOk prediction =>
            let st1 :=
              if bool_decide (Polling.status prediction = "succeeded") then
                updatePredictionResult id (completed_update prediction now_update) st
              else if bool_decide (Polling.status prediction = "failed") then
                updatePredictionResult id (failed_update prediction now_update) st
              else st in
            mkHandled
              (mkResponse 200 (PredictionBody id (predictionResults st1 !! id)))
              (cleanup now_cleanup st1) [id]
        end
      else
        mkHandled (mkResponse 200 (PredictionBody id (Some result)))
                  (cleanup now_cleanup st) []
  end.

(** A store with one entry that was completed long ago. *)
Definition stale_store : Store :=
  mkStore {[ "old" := mkResult "completed" (JStr "https://replicate.delivery/o.png")
                               None None (Some 1000) None ]}
          {[ "old" := 0%nat ]}
          [true].

(** C2: the claim fails on the code.  When two updates of one key are issued
    together, both wait on the same settled promise, so the function of the
    second runs before the write of the first is stored: the trace is not
    serialized, and the write of the faster update is overwritten by the
    slower one, which was computed from the state before both.  Issued one
    after the other, the same two updates are serialized and both writes
    are kept. *)
Theorem updates_issued_together_interleave :
  (exists m,
     run issued_together two_updates = Some m /\
     trace m = [RanUpdateFn 0 processing; RanUpdateFn 1 processing;
                Stored 1 (attach_user processing);
                Stored 0 (mark_completed processing)] /\
     serialized (trace m) = false /\
     Ok <$> (predictionResults (store m) !! "p1") = Some (mark_completed processing)) /\
  (exists m,
     run one_after_the_other two_updates = Some m /\
     serialized (trace m) = true /\
     predictionResults (store m) !! "p1"
     = Some (mkResult "completed" JUndefined None None (Some 1700000000000)
                      (Some (mkUser "u1" "u1@example.com" "User One")))).
Proof.
  split; eexists; (split; [vm_compute; reflexivity|]); repeat split.
Qed.

(** With functions that settle at once (as every caller in the file passes)
    the jobs of two calls issued together run in this order, and it is the
    first write that is lost. *)
Example immediate_updates_interleave :
  exists m,
    run [Call 0%nat; Call 1%nat; AfterLock 0%nat; AfterLock 1%nat;
         AfterUpdateFn 0%nat; AfterUpdateFn 1%nat] two_updates = Some m /\
    serialized (trace m) = false /\
    Ok <$> (predictionResults (store m) !! "p1") = Some (attach_user processing).
Proof.
  eexists; (split; [vm_compute; reflexivity|]); repeat split.
Qed.

(** A call that comes while another update runs its function does wait. *)
Example late_call_waits :
  run [Call 0%nat; AfterLock 0%nat; Call 1%nat; AfterLock 1%nat] two_updates = None.
Proof. vm_compute. reflexivity. Qed.


Lemma cleanup_evicts (now : Z) (st : Store) (k : string) (v : Result) :
  predictionResults st !! k = Some v -> expired now v = true ->
  predictionResults (cleanup now st) !! k = None /\
  predictionLocks (cleanup now st) !! k = None.
Proof.
  intros Hk He. unfold cleanup. cbn [predictionResults predictionLocks]. split.
  - apply map_lookup_filter_None. right. intros v' Hv'. cbn.
    rewrite Hk in Hv'. injection Hv' as <-. rewrite He. discriminate.
  - apply map_lookup_filter_None. right. intros lock _. cbn.
    unfold kept. rewrite Hk, He. discriminate.
Qed.

Lemma update_other_key (id k : string) (f : Result -> Res Result) (st : Store) :
  k <> id ->
  predictionResults (updatePredictionResult id f st) !! k = predictionResults st !! k.
Proof.
  intros Hne. unfold updatePredictionResult, enter, begin_update, complete_update.
  destruct (predictionLocks st !! id); cbn [predictionResults];
    (destruct (f _); [apply lookup_insert_ne; congruence | reflexivity]).
Qed.




(** C10: a status read for an id that has no entry answers 404 'Prediction
    not found', leaves the store as it was (no entry, no lock, no promise is
    created) and asks the remote API for nothing. *)
Theorem unknown_id_is_not_found (remote : string -> Polling.Fetch)
    (now_update now : Z) (id : string) (st : Store) :
  predictionResults st !! id = None ->
  get_prediction remote now_update now id st
  = mkHandled (mkResponse 404 (ErrorBody "Prediction not found" None)) st [].
Proof.
  intros Hnone. unfold get_prediction. rewrite Hnone. reflexivity.
Qed.

Lemma unknown_id_is_not_found_witness :
  predictionResults stale_store !! "p9" = None /\
  get_prediction (fun _ => Polling.FetchFails "fetch failed")
                 1700000000000 1700000000000 "p9" stale_store
  = mkHandled (mkResponse 404 (ErrorBody "Prediction not found" None)) stale_store [].
Proof.
  split; [vm_compute; reflexivity|].
  apply (unknown_id_is_not_found (fun _ => Polling.FetchFails "fetch failed")
           1700000000000 1700000000000 "p9" stale_store).
  vm_compute. reflexivity.
Defined.

End ResultStore.

(** ** Thumbnail archiver ([downloadAndSaveImage], server.js 1364-1463) *)

Module Archiver.
Import Str.

(** What a download request comes back with: a response, whatever its
    status, or a failed request. *)
Inductive Download :=
| Responds (status : Z) (data : string)
| Fails (message : string).

(** The world of one call.  [primary k] answers the request for the image
    URL made when [retryCount] is [k], [alternate k] the request for the
    alternate URL made in the same pass; [now] and [random] are what
    [Date.now()] and the random suffix evaluate to. *)
Record World := mkWorld {
  disk : gmap string string;
  thumbnail_dir_ok : bool;
  primary : nat -> Download;
  alternate : nat -> Download;
  now : Z;
  random : string
}.

(** What the call does to the outside, in order. *)
Inductive Effect :=
| RequestPrimary (url : string)
| RequestAlternate (url : string)
| Sleep (ms : Z).



Definition maxRetries : nat := 3.

(** [s.replace(pattern, replacement)] with a string pattern: the first
    occurrence only. *)
Fixpoint replace_first (pattern replacement s : string) : string :=
  if startsWith s pattern
  then replacement +:+ String.substring (String.length pattern)
                         (String.length s - String.length pattern) s
  else match s with
       | EmptyString => EmptyString
       | String c s' => String c (replace_first pattern replacement s')
       end.

(** [s.split('/').pop()]. *)
Fixpoint last_segment_from (acc s : string) : string :=
  match s with
  | EmptyString => acc
  | String c s' =>
      if decide (c = "/"%char) then last_segment_from EmptyString s'
      else last_segment_from (acc +:+ String c EmptyString) s'
  end.

Definition last_segment (s : string) : string := last_segment_from EmptyString s.

Section WithDirectory.

Variable THUMBNAIL_DIR : string.

(** [path.join(THUMBNAIL_DIR, filename)]; dot segments are not resolved. *)
Definition in_thumbnails (filename : string) : string :=
  match filename with
  | EmptyString => THUMBNAIL_DIR
  | _ => THUMBNAIL_DIR +:+ "/" +:+ filename
  end.

(** [fsPromises.access]: a file of the disk, or the thumbnail directory. *)
Definition accessible (d : gmap string string) (p : string) : bool :=
  bool_decide (is_Some (d !! p)) || bool_decide (p = THUMBNAIL_DIR).

(** The retry loop.  [remaining] is [maxRetries - retryCount], so the loop
    condition [retryCount < maxRetries] reads [remaining <> 0]; [response]
    is the variable of that name.  The result is the value of [response]
    when the loop is left, or the error thrown inside it. *)
Fixpoint download_loop (w : World) (imageUrl : string) (remaining : nat)
    (response : option (Z * string)) : Res (option (Z * string)) * list Effect :=
  match remaining with
  | O => (Ok response, [])
  | S remaining' =>
      let retryCount := (maxRetries - remaining)%nat in
      match primary w retryCount with
      | Responds status data =>
          if status =? 200 then (Ok (Some (status, data)), [RequestPrimary imageUrl])
          else
            let '(r, es) := download_loop w imageUrl remaining' (Some (status, data)) in
            (r, RequestPrimary imageUrl :: Sleep 2000 :: es)
      | Fails _ =>
          let altUrl := replace_first "replicate.delivery" "replicate.com" imageUrl in
          let '(response', broke, alt) :=
            if includes imageUrl "replicate.delivery" then
              match alternate w retryCount with
              | Responds status data =>
                  if (200 <=? status) && (status <? 300)
                  then (Some (status, data), status =? 200, [RequestAlternate altUrl])
                  else (response, false, [RequestAlternate altUrl])
              | Fails _ => (response, false, [RequestAlternate altUrl])
              end
            else (response, false, []) in
          if (broke : bool) then (Ok response', RequestPrimary imageUrl :: alt)
          else
            match remaining' with
            | O => (Throw "Max retries reached for download",
                    RequestPrimary imageUrl :: alt)
            | S _ =>
                let '(r, es) := download_loop w imageUrl remaining' response' in
                (r, RequestPrimary imageUrl :: alt ++ Sleep 2000 :: es)
            end
      end
  end.

(** The local file name and URL of a new thumbnail. *)
Definition new_filename (w : World) : string :=
  "thumbnail_" +:+ pretty (now w) +:+ "_" +:+ random w +:+ ".png".

Definition local_url (filename : string) : string :=
  "http://localhost:5000/ThumbnailImages/" +:+ filename.

(** The part after the early return: download, write, verify. *)
Definition download_and_save (w : World) (imageUrl : string)
    : Res string * gmap string string * list Effect :=
  match download_loop w imageUrl maxRetries None with
  | (Throw message, es) => (Throw message, disk w, es)
  | (Ok response, es) =>
      match response with
      | Some (status, data) =>
          if status =? 200 then
            let filename := new_filename w in
            let localPath := in_thumbnails filename in
            let disk' := <[localPath := data]> (disk w) in
            match disk' !! localPath with
            | Some content =>
                if (String.length content =? 0)%nat
                then (Throw "File verification failed: File was created but is empty",
                      disk', es)
                else (Ok (local_url filename), disk', es)
            | None =>
                (Throw "File verification failed: ENOENT: no such file or directory",
                 disk', es)
            end
          else (Throw "Failed to download image after 3 attempts", disk w, es)
      | None => (Throw "Failed to download image after 3 attempts", disk w, es)
      end
  end.

(** [downloadAndSaveImage]: the returned URL or the error, the disk the call
    leaves, and what it did to the outside. *)
Definition downloadAndSaveImage (w : World) (imageUrl : string)
    : Res string * gmap string string * list Effect :=
  if thumbnail_dir_ok w then
    if includes imageUrl "ThumbnailImages"
       && accessible (disk w) (in_thumbnails (last_segment imageUrl))
    then (Ok imageUrl, disk w, [])
    else download_and_save w imageUrl
  else (Throw "EACCES: permission denied, mkdir", disk w, []).












End WithDirectory.

(** A delivery host that fails once, answers 503 once, then serves the
    image. *)
Definition flaky : World :=
  mkWorld ∅ true
    (fun k => match k with
              | O => Fails "socket hang up"
              | 1%nat => Responds 503 ""
              | _ => Responds 200 "PNGDATA"
              end)
    (fun _ => Fails "Request failed with status code 404")
    1700000000000 "k3x9q".

Example flaky_effects :
  (downloadAndSaveImage "/data/thumbnails" flaky
     "https://replicate.delivery/x/out.png").2
  = [RequestPrimary "https://replicate.delivery/x/out.png";
     RequestAlternate "https://replicate.com/x/out.png";
     Sleep 2000;
     RequestPrimary "https://replicate.delivery/x/out.png";
     Sleep 2000;
     RequestPrimary "https://replicate.delivery/x/out.png"].
Proof. vm_compute. reflexivity. Qed.


End Archiver.

(** ** Flat thumbnail-metadata file ([GET /api/thumbnails], the metadata
       step of [POST /api/thumbnails], [cleanupThumbnails];
       server.js 1465-1477, 1535, 1553-1562, 1629-1658) *)

Module Metadata.
Import Js.

(** What [fsPromises.writeFile] does with the content it is given: it stores
    it, it throws, or it leaves other content in the file (a write cut
    short, another writer). *)
Inductive WriteOutcome :=
| Written
| WriteFails (message : string)
| Garbled (content : string).

(** The metadata file ([None] when it is missing), the outcome of the n-th
    write, and the contents handed to [writeFile] so far. *)
Record World := mkWorld {
  file : option string;
  outcome : nat -> WriteOutcome;
  handed : list string
}.

Definition writeFile (content : string) (w : World) : Res unit * World :=
  match outcome w (List.length (handed w)) with
  | Written => (Ok tt, mkWorld (Some content) (outcome w) (handed w ++ [content]))
  | WriteFails message => (Throw message, mkWorld (file w) (outcome w) (handed w ++ [content]))
  | Garbled other => (Ok tt, mkWorld (Some other) (outcome w) (handed w ++ [content]))
  end.

Inductive Body :=
| ErrorBody (error : string)
| JsonBody (value : JValue).

Record Response := mkResponse { code : Z; body : Body }.

Section WithJson.

(** [JSON.parse] ([None] for a syntax error) and [JSON.stringify(v, null, 2)]:
    library code, taken as it is. *)
Variable parse : string -> option JValue.
Variable stringify : JValue -> string.

(** [JSON.parse(await fsPromises.readFile(THUMBNAILS_FILE, 'utf8'))]. *)
Definition read_thumbnails (w : World) : Res JValue :=
  match file w with
  | None => Throw "ENOENT: no such file or directory, open 'thumbnails.json'"
  | Some data =>
      match parse data with
      | Some thumbnails => Ok thumbnails
      | None => Throw "Unexpected token in JSON"
      end
  end.





(** [cleanupThumbnails].  [revalidate] stands for the loop of lines
    1479-1532 that keeps and repairs the valid records; the file is written
    once and not read back. *)
Definition cleanupThumbnails (revalidate : JValue -> Res JValue) (w : World) : World :=
  match read_thumbnails w with
  | Throw _ => w
  | Ok thumbnails =>
      match revalidate thumbnails with
      | Throw _ => w
      | Ok validThumbnails => (writeFile (stringify validThumbnails) w).2
      end
  end.





End WithJson.

(** Stand-ins for [JSON.parse] and [JSON.stringify] in closed examples: they
    know the empty array only. *)
Definition parse_empty_array (s : string) : option JValue :=
  if decide (s = "[]") then Some (JArr []) else None.

Definition stringify_empty_array (_ : JValue) : string := "[]".



(** The write of [cleanupThumbnails] is not read back: content that is not
    JSON stays in the file. *)
Example cleanup_write_is_not_validated :
  file (cleanupThumbnails parse_empty_array stringify_empty_array
          (fun thumbnails => Ok thumbnails)
          (mkWorld (Some "[]") (fun _ => Garbled "[") []))
  = Some "[" /\
  parse_empty_array "[" = None.
Proof. split; reflexivity. Qed.


End Metadata.

(** ** From the polling loop to the answer of [/api/generate-image]
       (server.js 997-1065 and 1087-1093) *)

Module Generation.
Import Js Polling Output.

(** What the handler has in hand after the loop and the two checks that
    follow it: the normalised [imageUrls], or the error that the outer catch
    block turns into a 500 answer.  [None] while the loop has not ended. *)
Definition generation_result (engineType : string) (fuel : nat)
    (remote : nat -> Fetch) (prediction : Prediction) : option (Res JValue) :=
  match poll fuel remote (start prediction) with
  | StillPolling _ => None
  | LoopThrew message _ => Some (Throw message)
  | LoopEnded st =>
      match after_loop st with
      | Throw message => Some (Throw message)
      | Ok result => Some (normalizeOutput engineType (output result))
      end
  end.


(** A fetch that returns a status that is not terminal. *)
Definition still_running (f : Fetch) : Prop :=
  match f with
  | FetchOk p => is_terminal (status p) = false
  | FetchFails _ => False
  end.


(** The loop over a run of fetches that all return a status that is not
    terminal: each one counts as an attempt. *)
Lemma poll_running_prefix (remote : nat -> Fetch) :
  forall d st fuel,
    attempts st = fetches st -> (fetches st + d <= maxAttempts)%nat ->
    is_terminal (status (result st)) = false ->
    (forall n, (fetches st <= n < fetches st + d)%nat -> still_running (remote n)) ->
    exists p, is_terminal (status p) = false /\
      poll (d + fuel) remote st
      = poll fuel remote (mkLoop p (fetches st + d) (fetches st + d)) /\
      (d = 0%nat -> p = result st) /\
      (d <> 0%nat -> remote (fetches st + d - 1)%nat = FetchOk p).
Proof.
  induction d as [|d IH]; intros st fuel Ha Hle Hst Hpre.
  - exists (result st). split; [exact Hst|]. split; [|split; [reflexivity | congruence]].
    cbn [Nat.add]. rewrite Nat.add_0_r.
    destruct st as [r a k]; cbn [attempts fetches result] in *. now subst a.
  - cbn [Nat.add poll]. unfold loop_body at 1. rewrite Hst. cbn [negb andb].
    assert ((attempts st <? maxAttempts)%nat = true) as ->
      by (apply Nat.ltb_lt; lia).
    pose proof (Hpre (fetches st) ltac:(lia)) as Hrun. unfold still_running in Hrun.
    destruct (remote (fetches st)) as [p0|message] eqn:Hr; [|contradiction].
    destruct (IH (mkLoop p0 (S (attempts st)) (S (fetches st))) fuel)
      as (p & Hp & Hpoll & Hzero & Hlast); cbn [fetches attempts result];
      try lia; try assumption.
    { intros n Hn. apply Hpre. lia. }
    cbn [fetches] in Hpoll, Hlast.
    exists p. split; [exact Hp|]. split; [|split; [lia|]].
    + rewrite Hpoll. do 2 f_equal; lia.
    + intros _. destruct d as [|d'].
      * rewrite (Hzero eq_refl). cbn [result].
        replace (fetches st + 1 - 1)%nat with (fetches st) by lia. exact Hr.
      * replace (fetches st + S (S d') - 1)%nat with (S (fetches st) + S d' - 1)%nat by lia.
        apply Hlast. lia.
Qed.


(** X2: when 300 fetches in a row return a status that is not terminal, the
    loop ends after exactly 300 fetches and the request is reported as timed
    out, with the last status in the message. *)
Theorem polling_times_out_at_ceiling (engineType : string) (remote : nat -> Fetch)
    (p0 : Prediction) (fuel : nat) :
  is_terminal (status p0) = false ->
  (forall n, (n < 300)%nat -> still_running (remote n)) ->
  (301 <= fuel)%nat ->
  exists p, remote 299%nat = FetchOk p /\
    poll fuel remote (start p0) = LoopEnded (mkLoop p 300 300) /\
    generation_result engineType fuel remote p0
    = Some (Throw ("Prediction timed out after 300 seconds. Last status: "
                   +:+ status p)).
Proof.
  intros H0 Hrun Hfuel.
  destruct (poll_running_prefix remote 300 (start p0) (fuel - 300))
    as (p & Hp & Hpoll & _ & Hlast); cbn [start fetches attempts result];
    try reflexivity; try assumption.
  { intros n Hn. apply Hrun. lia. }
  cbn [start fetches] in Hpoll, Hlast.
  replace (300 + (fuel - 300))%nat with fuel in Hpoll by lia.
  change (0 + 300)%nat with 300%nat in Hpoll, Hlast.
  assert (Hend : poll fuel remote (start p0) = LoopEnded (mkLoop p 300 300)).
  { rewrite Hpoll. destruct (fuel - 300)%nat as [|f] eqn:Hf; [lia|].
    cbn [poll]. unfold loop_body. cbn [result attempts]. rewrite Hp.
    reflexivity. }
  exists p. split; [apply Hlast; lia|]. split; [exact Hend|].
  unfold generation_result. rewrite Hend.
  rewrite timed_out_at_ceiling; [reflexivity | reflexivity | exact Hp].
Qed.

(** X3: a fetch that fails when 299 attempts have been counted is not
    retried: its error leaves the loop and becomes the answer, and the
    request is not reported as timed out. *)
Theorem error_at_last_attempt_is_thrown (engineType : string)
    (remote : nat -> Fetch) (p0 : Prediction) (message : string) (fuel : nat) :
  is_terminal (status p0) = false ->
  (forall n, (n < 299)%nat -> still_running (remote n)) ->
  remote 299%nat = FetchFails message ->
  (300 <= fuel)%nat ->
  generation_result engineType fuel remote p0 = Some (Throw message).
Proof.
  intros H0 Hrun Hfail Hfuel.
  destruct (poll_running_prefix remote 299 (start p0) (fuel - 299))
    as (p & Hp & Hpoll & _ & _); cbn [start fetches attempts result];
    try reflexivity; try assumption.
  { unfold maxAttempts. lia. }
  { intros n Hn. apply Hrun. lia. }
  cbn [start fetches] in Hpoll.
  replace (299 + (fuel - 299))%nat with fuel in Hpoll by lia.
  change (0 + 299)%nat with 299%nat in Hpoll.
  unfold generation_result. rewrite Hpoll.
  destruct (fuel - 299)%nat as [|f] eqn:Hf; [lia|].
  cbn [poll]. unfold loop_body. cbn [result attempts fetches]. rewrite Hp.
  cbn [negb andb]. rewrite Hfail. reflexivity.
Qed.







(** A remote that reports [processing] for ever, one that does so until
    its answer number 299 fails, and one that reports a failure at once. *)
Definition stuck : nat -> Fetch := fun _ =>
  FetchOk (mkPrediction "p1" "processing" None JUndefined).

Definition breaks_at_299 : nat -> Fetch := fun n =>
  if (n <? 299)%nat then FetchOk (mkPrediction "p1" "processing" None JUndefined)
  else FetchFails "connect ETIMEDOUT".




Lemma polling_times_out_at_ceiling_witness :
  exists p, stuck 299%nat = FetchOk p /\
    poll 400 stuck (start (starting "p1")) = LoopEnded (mkLoop p 300 300) /\
    generation_result "standard" 400 stuck (starting "p1")
    = Some (Throw ("Prediction timed out after 300 seconds. Last status: "
                   +:+ status p)).
Proof.
  apply (polling_times_out_at_ceiling "standard" stuck (starting "p1") 400);
    [reflexivity | intros n _; reflexivity | lia].
Defined.

Lemma error_at_last_attempt_is_thrown_witness :
  generation_result "standard" 400 breaks_at_299 (starting "p1")
  = Some (Throw "connect ETIMEDOUT").
Proof.
  apply (error_at_last_attempt_is_thrown "standard" breaks_at_299 (starting "p1")
           "connect ETIMEDOUT" 400); [reflexivity | | reflexivity | lia].
  intros n Hn. unfold breaks_at_299.
  apply Nat.ltb_lt in Hn. rewrite Hn. reflexivity.
Defined.



End Generation.

(** ** Job tracking: submission, status reads and the webhook
       ([/api/generate-skoda-illustration] 1281-1286,
       [GET /api/prediction/:id] 1304-1358, [/api/replicate-webhook]
       1712-1760) *)

Module Tracking.
Import Js ResultStore.

(** The update that stores the initial state of a submitted job. *)
Definition submitted_update (user : UserInfo) (now : Z) (_ : Result) : Res Result :=
  Ok (mkResult "processing" JUndefined None (Some now) None (Some user)).

Definition record_submission (id : string) (user : UserInfo) (now : Z)
    (st : Store) : Store :=
  updatePredictionResult id (submitted_update user now) st.

(** One call of [logApiCall] by the webhook: the user, the prediction id of
    the request snapshot and the image URL of the response snapshot. *)
Record LogCall := mkLog {
  log_user : UserInfo;
  log_prediction : string;
  log_image : JValue
}.

(** What one webhook request did: its status code, the store it left and
    the calls of [logApiCall] it made. *)
Record Delivered := mkDelivered {
  delivered_code : Z;
  delivered_store : Store;
  logged : list LogCall
}.

(** [/api/replicate-webhook], run with no other request in flight.
    [db_up] says whether [logApiCall] succeeds; when it throws the handler
    answers 500. *)
Definition replicate_webhook (db_up : bool) (now : Z)
    (prediction : Polling.Prediction) (st : Store) : Delivered :=
  let id := Polling.id prediction in
  if bool_decide (Polling.status prediction = "succeeded") then
    match predictionResults st !! id with
    | None => mkDelivered 200 st []
    | Some storedResult =>
        let st1 := updatePredictionResult id (completed_update prediction now) st in
        match userInfo storedResult with
        | Some user =>
            match index0 (Polling.output prediction) with
            | Throw _ => mkDelivered 500 st1 []
            | Ok url =>
                mkDelivered (if db_up then 200 else 500) st1 [mkLog user id url]
            end
        | None => mkDelivered 200 st1 []
        end
    end
  else if bool_decide (Polling.status prediction = "failed") then
    mkDelivered 200 (updatePredictionResult id (failed_update prediction now) st) []
  else mkDelivered 200 st [].

(** Every lock of the map is a settled promise: a call that finds it does
    not wait. *)
Definition locks_settled (st : Store) : Prop :=
  forall k lock, predictionLocks st !! k = Some lock -> settled st !! lock = Some true.

(** The store after one update, field by field. *)
Lemma update_results (id : string) (f : Result -> Res Result) (st : Store) :
  predictionResults (updatePredictionResult id f st)
  = match f (default processing (predictionResults st !! id)) with
    | Ok updated => <[id := updated]> (predictionResults st)
    | Throw _ => predictionResults st
    end.
Proof.
  unfold updatePredictionResult, enter, begin_update, complete_update.
  destruct (predictionLocks st !! id); reflexivity.
Qed.

Lemma update_keeps_locks_settled (id : string) (f : Result -> Res Result) (st : Store) :
  locks_settled st -> locks_settled (updatePredictionResult id f st).
Proof.
  intros Hinv k lock.
  unfold updatePredictionResult, enter, begin_update, complete_update.
  destruct (predictionLocks st !! id) as [l|] eqn:Hl;
    cbn [predictionLocks settled predictionResults].
  - destruct (decide (k = id)) as [->|Hne].
    + rewrite lookup_insert_eq. intros [= <-].
      apply list_lookup_insert_eq. rewrite length_app. cbn. lia.
    + rewrite lookup_insert_ne by congruence. intros Hk.
      pose proof (Hinv k lock Hk) as Hs.
      pose proof (lookup_lt_Some _ _ _ Hs) as Hlt.
      rewrite list_lookup_insert_ne by lia.
      now rewrite lookup_app_l.
  - destruct (decide (k = id)) as [->|Hne].
    + rewrite lookup_insert_eq. intros [= <-].
      apply list_lookup_insert_eq. rewrite !length_app. cbn. lia.
    + rewrite !lookup_insert_ne by congruence. intros Hk.
      pose proof (Hinv k lock Hk) as Hs.
      pose proof (lookup_lt_Some _ _ _ Hs) as Hlt.
      rewrite list_lookup_insert_ne by (rewrite length_app; cbn; lia).
      rewrite lookup_app_l by (rewrite length_app; cbn; lia).
      now rewrite lookup_app_l.
Qed.

Lemma cleanup_keeps_locks_settled (now : Z) (st : Store) :
  locks_settled st -> locks_settled (cleanup now st).
Proof.
  intros Hinv k lock. unfold cleanup. cbn [predictionLocks settled].
  intros Hk. apply map_lookup_filter_Some in Hk as [Hk _]. exact (Hinv k lock Hk).
Qed.

(** X6: an update run to its end stores what the update function returns
    for the current result (for a key without entry, for
    [{ status: 'processing' }]), stores nothing when the function throws,
    leaves every other key as it was, and leaves the key with a lock that
    is settled. *)
Theorem update_stores_and_releases (id : string) (f : Result -> Res Result) (st : Store) :
  predictionResults (updatePredictionResult id f st) !! id
  = match f (default processing (predictionResults st !! id)) with
    | Ok updated => Some updated
    | Throw _ => predictionResults st !! id
    end /\
  (forall k, k <> id ->
     predictionResults (updatePredictionResult id f st) !! k
     = predictionResults st !! k) /\
  exists lock,
    predictionLocks (updatePredictionResult id f st) !! id = Some lock /\
    settled (updatePredictionResult id f st) !! lock = Some true.
Proof.
  split; [|split].
  - rewrite update_results. destruct (f _); [apply lookup_insert_eq | reflexivity].
  - intros k Hne. now apply update_other_key.
  - unfold updatePredictionResult, enter, begin_update, complete_update.
    destruct (predictionLocks st !! id); cbn [predictionLocks settled];
      eexists; (split; [apply lookup_insert_eq|]);
      apply list_lookup_insert_eq; rewrite !length_app; cbn; lia.
Qed.

(** X7: when every lock of the map is settled, it is so again after a
    submission, a status read or a webhook delivery run to its end: none of
    them leaves a pending lock behind. *)
Theorem handlers_keep_locks_settled (st : Store) :
  locks_settled st ->
  (forall id user now, locks_settled (record_submission id user now st)) /\
  (forall remote now_update now id,
     locks_settled (store_after (get_prediction remote now_update now id st))) /\
  (forall db_up now prediction,
     locks_settled (delivered_store (replicate_webhook db_up now prediction st))).
Proof.
  intros Hinv. split; [|split].
  - intros id user now. now apply update_keeps_locks_settled.
  - intros remote now_update now id. unfold get_prediction.
    destruct (predictionResults st !! id) as [r|]; [|exact Hinv].
    destruct (bool_decide (status r = "processing")).
    + destruct (remote id) as [p|m]; [|exact Hinv].
      cbn [store_after]. apply cleanup_keeps_locks_settled.
      repeat case_bool_decide; try apply update_keeps_locks_settled; exact Hinv.
    + cbn [store_after]. now apply cleanup_keeps_locks_settled.
  - intros db_up now prediction. unfold replicate_webhook.
    repeat case_bool_decide; cbn [delivered_store]; try exact Hinv;
      try (now apply update_keeps_locks_settled).
    destruct (predictionResults st !! Polling.id prediction) as [r|]; [|exact Hinv].
    destruct (userInfo r); [destruct (index0 _)|]; cbn [delivered_store];
      now apply update_keeps_locks_settled.
Qed.

(** X8: a job whose stored status is not [processing] is answered from the
    store: the remote API is not asked, the answer carries the stored
    record, and the record stays in the store unless its completion lies
    more than one hour back. *)
Theorem finished_job_is_served_from_store (remote : string -> Polling.Fetch)
    (now_update now : Z) (id : string) (st : Store) (r : Result) :
  predictionResults st !! id = Some r ->
  status r <> "processing" ->
  response (get_prediction remote now_update now id st)
    = mkResponse 200 (PredictionBody id (Some r)) /\
  fetched (get_prediction remote now_update now id st) = [] /\
  (expired now r = false ->
   predictionResults (store_after (get_prediction remote now_update now id st)) !! id
   = Some r).
Proof.
  intros Hr Hs. unfold get_prediction. rewrite Hr.
  rewrite bool_decide_eq_false_2 by exact Hs.
  cbn [response fetched store_after]. repeat split.
  intros He. unfold cleanup. cbn [predictionResults].
  apply map_lookup_filter_Some. split; [exact Hr | exact He].
Qed.

(** X9: a status read of a [processing] job for which the remote API
    reports [succeeded] asks the remote once and answers with a record
    [completed] that carries the first output as its image URL and the time
    of the update; the start time and the user attributes stored at
    submission are not in it. *)
Theorem status_read_completes_job (remote : string -> Polling.Fetch)
    (now_update now : Z) (id : string) (st : Store) (r : Result)
    (prediction : Polling.Prediction) (url : JValue) :
  predictionResults st !! id = Some r ->
  status r = "processing" ->
  remote id = Polling.FetchOk prediction ->
  Polling.status prediction = "succeeded" ->
  index0 (Polling.output prediction) = Ok url ->
  response (get_prediction remote now_update now id st)
    = mkResponse 200
        (PredictionBody id
           (Some (mkResult "completed" url None None (Some now_update) None))) /\
  fetched (get_prediction remote now_update now id st) = [id].
Proof.
  intros Hr Hs Hrem Hps Hurl. unfold get_prediction. rewrite Hr.
  rewrite bool_decide_eq_true_2 by exact Hs. rewrite Hrem.
  rewrite bool_decide_eq_true_2 by exact Hps.
  cbn [response fetched]. split; [|reflexivity].
  do 3 f_equal. rewrite update_results.
  unfold completed_update. rewrite Hurl. apply lookup_insert_eq.
Qed.

(** X10: a finished job whose completion lies more than one hour back is
    served one last time: the read answers 200 with the record and evicts
    it, and the next read of the same id answers 404. *)
Theorem expired_job_is_served_once (remote : string -> Polling.Fetch)
    (now_update now now_update' now' : Z) (id : string) (st : Store) (r : Result) :
  predictionResults st !! id = Some r ->
  status r <> "processing" ->
  expired now r = true ->
  response (get_prediction remote now_update now id st)
    = mkResponse 200 (PredictionBody id (Some r)) /\
  response (get_prediction remote now_update' now' id
              (store_after (get_prediction remote now_update now id st)))
    = mkResponse 404 (ErrorBody "Prediction not found" None).
Proof.
  intros Hr Hs He.
  destruct (finished_job_is_served_from_store remote now_update now id st r Hr Hs)
    as (Hresp & _ & _).
  split; [exact Hresp|].
  assert (Hgone : predictionResults
            (store_after (get_prediction remote now_update now id st)) !! id = None).
  { unfold get_prediction. rewrite Hr.
    rewrite bool_decide_eq_false_2 by exact Hs. cbn [store_after].
    now apply (cleanup_evicts now st id r). }
  unfold get_prediction at 1. rewrite Hgone. reflexivity.
Qed.

(** X11: the sweep keeps every entry that is still processing or whose
    completion lies at most one hour back, with the lock of its key as it
    was. *)
Theorem cleanup_keeps_live_entries (now : Z) (st : Store) (k : string) (v : Result) :
  predictionResults st !! k = Some v ->
  expired now v = false ->
  predictionResults (cleanup now st) !! k = Some v /\
  predictionLocks (cleanup now st) !! k = predictionLocks st !! k.
Proof.
  intros Hk He. unfold cleanup. cbn [predictionResults predictionLocks]. split.
  - apply map_lookup_filter_Some. split; assumption.
  - destruct (predictionLocks st !! k) as [lock|] eqn:Hl.
    + apply map_lookup_filter_Some. split; [exact Hl|]. cbn.
      unfold kept. rewrite Hk, He. reflexivity.
    + apply map_lookup_filter_None. left. exact Hl.
Qed.

(** X12: a webhook delivery for an id without entry changes nothing when it
    reports [succeeded], and creates an entry [failed] when it reports
    [failed]; it logs no call and answers 200 either way. *)
Theorem webhook_for_unknown_id (db_up : bool) (now : Z)
    (prediction : Polling.Prediction) (st : Store) :
  predictionResults st !! Polling.id prediction = None ->
  (Polling.status prediction = "succeeded" ->
   replicate_webhook db_up now prediction st = mkDelivered 200 st []) /\
  (Polling.status prediction = "failed" ->
   delivered_code (replicate_webhook db_up now prediction st) = 200 /\
   logged (replicate_webhook db_up now prediction st) = [] /\
   exists v,
     predictionResults (delivered_store (replicate_webhook db_up now prediction st))
       !! Polling.id prediction = Some v /\
     status v = "failed" /\ completedTime v = Some now).
Proof.
  intros Hnone. unfold replicate_webhook. split; intros Hs; rewrite Hs.
  - rewrite bool_decide_eq_true_2 by reflexivity. now rewrite Hnone.
  - rewrite bool_decide_eq_false_2 by discriminate.
    rewrite bool_decide_eq_true_2 by reflexivity.
    cbn [delivered_code logged delivered_store]. repeat split.
    eexists. rewrite update_results. unfold failed_update.
    split; [apply lookup_insert_eq|]. split; reflexivity.
Qed.

(** X13: when the webhook reports [succeeded] for a job that was submitted
    and not touched since, it logs exactly one call, for the user who
    submitted the job and with the first output as image, and the record
    becomes [completed]. *)
Theorem webhook_logs_for_submitter (db_up : bool) (t0 now : Z) (user : UserInfo)
    (prediction : Polling.Prediction) (url : JValue) (st : Store) :
  Polling.status prediction = "succeeded" ->
  index0 (Polling.output prediction) = Ok url ->
  logged (replicate_webhook db_up now prediction
            (record_submission (Polling.id prediction) user t0 st))
    = [mkLog user (Polling.id prediction) url] /\
  predictionResults
    (delivered_store (replicate_webhook db_up now prediction
                        (record_submission (Polling.id prediction) user t0 st)))
    !! Polling.id prediction
    = Some (mkResult "completed" url None None (Some now) None).
Proof.
  intros Hs Hurl. unfold replicate_webhook, record_submission.
  rewrite bool_decide_eq_true_2 by exact Hs.
  rewrite (update_results _ (submitted_update user t0) st).
  cbn [submitted_update]. rewrite lookup_insert_eq. cbn [userInfo].
  rewrite Hurl. cbn [logged delivered_store]. split; [reflexivity|].
  rewrite update_results. unfold completed_update. rewrite Hurl.
  apply lookup_insert_eq.
Qed.

(** X14: when a status read has completed the job before the webhook
    arrives, the webhook logs no call: the record the read stored carries
    no user attributes (or was evicted already). *)
Theorem webhook_after_status_read_logs_nothing (db_up : bool)
    (remote : string -> Polling.Fetch) (now_update now now_hook : Z)
    (st : Store) (r : Result) (prediction : Polling.Prediction) (url : JValue) :
  predictionResults st !! Polling.id prediction = Some r ->
  status r = "processing" ->
  remote (Polling.id prediction) = Polling.FetchOk prediction ->
  Polling.status prediction = "succeeded" ->
  index0 (Polling.output prediction) = Ok url ->
  logged (replicate_webhook db_up now_hook prediction
            (store_after (get_prediction remote now_update now
                            (Polling.id prediction) st))) = [].
Proof.
  intros Hr Hs Hrem Hps Hurl.
  set (id := Polling.id prediction) in *.
  assert (Hst : forall v,
    predictionResults (store_after (get_prediction remote now_update now id st)) !! id
      = Some v -> userInfo v = None).
  { intros v. unfold get_prediction. rewrite Hr.
    rewrite bool_decide_eq_true_2 by exact Hs. rewrite Hrem.
    rewrite bool_decide_eq_true_2 by exact Hps. cbn [store_after].
    unfold cleanup. cbn [predictionResults]. intros Hv.
    apply map_lookup_filter_Some in Hv as [Hv _].
    rewrite update_results in Hv. unfold completed_update in Hv.
    rewrite Hurl in Hv. rewrite lookup_insert_eq in Hv. now injection Hv as <-. }
  unfold replicate_webhook. fold id.
  rewrite bool_decide_eq_true_2 by exact Hps.
  destruct (predictionResults (store_after _) !! id) as [v|] eqn:Hv; [|reflexivity].
  rewrite (Hst v eq_refl). reflexivity.
Qed.

(** A store that holds one submitted job, whose remote reports success. *)
Definition alice : UserInfo := mkUser "u1" "alice@example.com" "Alice".

Definition one_job : Store := record_submission "p1" alice 1700000000000 empty_store.

Definition done_p1 : Polling.Prediction :=
  Polling.mkPrediction "p1" "succeeded" None
    (JArr [JStr "https://replicate.delivery/p1.png"]).

Definition done_record : Result :=
  mkResult "completed" (JStr "https://replicate.delivery/p1.png") None None
           (Some 1700000005000) None.

Definition finished_store : Store :=
  mkStore {[ "p1" := done_record ]} {[ "p1" := 0%nat ]} [true].

Definition submitted_record : Result :=
  mkResult "processing" JUndefined None (Some 1700000000000) None (Some alice).

Lemma one_job_lookup : predictionResults one_job !! "p1" = Some submitted_record.
Proof.
  unfold one_job, record_submission. rewrite update_results. apply lookup_insert_eq.
Qed.

Lemma handlers_keep_locks_settled_witness :
  locks_settled empty_store /\
  locks_settled (record_submission "p1" alice 1700000000000 empty_store).
Proof.
  assert (H0 : locks_settled empty_store).
  { intros k lock Hk. vm_compute in Hk. discriminate. }
  split; [exact H0|].
  apply (proj1 (handlers_keep_locks_settled empty_store H0)).
Defined.

Lemma finished_job_is_served_from_store_witness :
  fetched (get_prediction (fun _ => Polling.FetchFails "fetch failed")
             1700000006000 1700000006000 "p1" finished_store) = [].
Proof.
  apply (finished_job_is_served_from_store (fun _ => Polling.FetchFails "fetch failed")
           1700000006000 1700000006000 "p1" finished_store done_record);
    [apply lookup_singleton_eq | discriminate].
Defined.

Lemma status_read_completes_job_witness :
  fetched (get_prediction (fun _ => Polling.FetchOk done_p1)
             1700000005000 1700000005000 "p1" one_job) = ["p1"].
Proof.
  apply (status_read_completes_job (fun _ => Polling.FetchOk done_p1)
           1700000005000 1700000005000 "p1" one_job submitted_record done_p1
           (JStr "https://replicate.delivery/p1.png"));
    [exact one_job_lookup | reflexivity | reflexivity | reflexivity | reflexivity].
Defined.

Lemma expired_job_is_served_once_witness :
  response (get_prediction (fun _ => Polling.FetchFails "fetch failed") 0 0 "p1"
              (store_after (get_prediction (fun _ => Polling.FetchFails "fetch failed")
                              1800000000000 1800000000000 "p1" finished_store)))
  = mkResponse 404 (ErrorBody "Prediction not found" None).
Proof.
  apply (expired_job_is_served_once (fun _ => Polling.FetchFails "fetch failed")
           1800000000000 1800000000000 0 0 "p1" finished_store done_record);
    [apply lookup_singleton_eq | discriminate | reflexivity].
Defined.

Lemma cleanup_keeps_live_entries_witness :
  predictionResults (cleanup 1700000006000 finished_store) !! "p1" = Some done_record.
Proof.
  apply (cleanup_keeps_live_entries 1700000006000 finished_store "p1" done_record);
    [apply lookup_singleton_eq | reflexivity].
Defined.

Lemma webhook_for_unknown_id_witness :
  replicate_webhook true 1700000005000 done_p1 empty_store
  = mkDelivered 200 empty_store [].
Proof.
  apply (webhook_for_unknown_id true 1700000005000 done_p1 empty_store);
    [apply lookup_empty | reflexivity].
Defined.

Lemma webhook_logs_for_submitter_witness :
  logged (replicate_webhook true 1700000005000 done_p1
            (record_submission (Polling.id done_p1) alice 1700000000000 empty_store))
  = [mkLog alice "p1" (JStr "https://replicate.delivery/p1.png")].
Proof.
  apply (webhook_logs_for_submitter true 1700000000000 1700000005000 alice done_p1
           (JStr "https://replicate.delivery/p1.png") empty_store);
    reflexivity.
Defined.

Lemma webhook_after_status_read_logs_nothing_witness :
  logged (replicate_webhook true 1700000006000 done_p1
            (store_after (get_prediction (fun _ => Polling.FetchOk done_p1)
                            1700000005000 1700000005000
                            (Polling.id done_p1) one_job))) = [].
Proof.
  apply (webhook_after_status_read_logs_nothing true (fun _ => Polling.FetchOk done_p1)
           1700000005000 1700000005000 1700000006000 one_job submitted_record done_p1
           (JStr "https://replicate.delivery/p1.png"));
    [exact one_job_lookup | reflexivity | reflexivity | reflexivity | reflexivity].
Defined.

End Tracking.

(** ** What the publisher does to the outside
       ([uploadToImageHost], [getAccessibleImageUrl]; server.js 298-444) *)

Module PublisherEffects.
Import Publisher.
Local Open Scope pub_scope.

Section WithNode.

Variable base64 : string -> string.
Variable UPLOADS_DIR : string.

(** The name of the temporary copy made when [Date.now()] reads [t]. *)
Definition temp_path (t : Z) : string :=
  in_uploads UPLOADS_DIR ("reliable_image_" +:+ pretty t +:+ ".jpg").

(** Two worlds that differ in the request counter only, by at most [n]. *)
Definition advanced (n : nat) (w w' : World) : Prop :=
  disk w' = disk w /\ imgbb w' = imgbb w /\ imgcdn w' = imgcdn w /\
  head w' = head w /\ now w' = now w /\
  (requests w <= requests w' <= requests w + n)%nat.

Lemma uploadToImageHost_advances (p : string) (w : World) :
  advanced 3 w (uploadToImageHost base64 p w).2.
Proof.
  unfold advanced, uploadToImageHost, try_catch, bind, ret, throw, readFile,
    Encoder.readFile, post_imgbb, post_imgcdn, axios_head.
  destruct (disk w !! p) as [content|]; cbn; [|repeat split; lia].
  destruct (imgbb w (requests w)) as [url| |m]; cbn.
  - destruct (head w (S (requests w)) url) as [status|m]; cbn.
    + destruct ((200 <=? status) && (status <? 300)) eqn:E; cbn; rewrite ?E; cbn.
      * repeat split; lia.
      * destruct (imgcdn w (S (S (requests w)))) as [[|c u]| |m']; cbn;
          repeat split; lia.
    + destruct (imgcdn w (S (S (requests w)))) as [[|c u]| |m']; cbn;
        repeat split; lia.
  - destruct (imgcdn w (S (requests w))) as [[|c u]| |m']; cbn; repeat split; lia.
  - destruct (imgcdn w (S (requests w))) as [[|c u]| |m']; cbn; repeat split; lia.
Qed.

Lemma advanced_by (p : string) (w w1 : World) (r : Res ImageRef) :
  uploadToImageHost base64 p w = (r, w1) -> advanced 3 w w1.
Proof.
  intros E. pose proof (uploadToImageHost_advances p w) as H.
  now rewrite E in H.
Qed.

(** The HEAD verification of [getAccessibleImageUrl] makes one request and
    does not throw. *)
Lemma verification_step (url : string) (w : World) :
  exists verified,
    try_catch
      (status <- axios_head url ;;
       if (200 <=? status) && (status <? 300) then ret true else ret false)
      (fun _ => ret false) w
    = (Ok verified, bump w).
Proof.
  unfold try_catch, bind, ret, axios_head.
  destruct (head w (requests w) url) as [status|m]; [|eauto].
  destruct ((200 <=? status) && (status <? 300)) eqn:E; [|eauto].
  rewrite E. eauto.
Qed.

(** The world after the fallback block of [getAccessibleImageUrl], started
    in a world [w2] where the temporary name is free. *)
Lemma fallback_block (p : string) (imageUrl : ImageRef) (w2 : World) :
  disk w2 !! temp_path (now w2 (requests w2)) = None ->
  exists r w5,
    try_catch
      (t <- date_now ;;
       let tempFilename := "reliable_image_" +:+ pretty t +:+ ".jpg" in
       let tempFilePath := in_uploads UPLOADS_DIR tempFilename in
       copyFile p tempFilePath ;;;
       secondAttemptUrl <- uploadToImageHost base64 tempFilePath ;;
       unlink tempFilePath ;;;
       ret secondAttemptUrl)
      (fun _ => ret imageUrl) w2
    = (Ok r, w5) /\ advanced 3 w2 w5.
Proof.
  intros Hfree. unfold try_catch at 1. unfold bind at 1. unfold date_now at 1.
  cbv beta zeta.
  change (in_uploads UPLOADS_DIR
            ("reliable_image_" +:+ pretty (now w2 (requests w2)) +:+ ".jpg"))
    with (temp_path (now w2 (requests w2))).
  set (tmp := temp_path (now w2 (requests w2))) in *.
  unfold bind at 1. unfold copyFile at 1.
  destruct (disk w2 !! p) as [content|] eqn:Hp.
  2:{ unfold ret. do 2 eexists. split; [reflexivity|].
      unfold advanced. repeat split; lia. }
  set (w3 := set_disk (<[tmp := content]> (disk w2)) w2).
  assert (Hread : disk w3 !! tmp = Some content) by apply lookup_insert_eq.
  unfold bind at 1.
  destruct (uploadToImageHost_readable base64 tmp content w3 Hread) as (r & w4 & E).
  rewrite E. pose proof (advanced_by tmp w3 w4 (Ok r) E) as (Hd & Hb & Hc & Hh & Hn & Hr).
  unfold bind at 1. unfold unlink at 1.
  do 2 eexists. rewrite Hd, Hread. unfold ret. split; [reflexivity|].
  unfold advanced. subst w3.
  cbn [set_disk disk imgbb imgcdn head now requests] in *.
  repeat split; try assumption; try lia.
  apply delete_insert_id. exact Hfree.
Qed.

Lemma getAccessibleImageUrl_advances (p : string) (w : World) :
  (forall n, disk w !! temp_path (now w n) = None) ->
  advanced 7 w (getAccessibleImageUrl base64 UPLOADS_DIR p w).2.
Proof.
  pose proof (uploadToImageHost_advances p w) as Hup.
  intros Hfree. unfold getAccessibleImageUrl.
  unfold try_catch at 1. unfold bind at 1.
  destruct (uploadToImageHost base64 p w) as [[imageUrl|m] w1] eqn:E;
    destruct Hup as (Hd & Hb & Hc & Hh & Hn & Hr); cbn [snd] in *.
  2:{ unfold throw, advanced. cbn [snd]. repeat split; try assumption; lia. }
  destruct imageUrl as [url|data].
  - unfold bind at 1.
    destruct (verification_step url w1) as (verified & ->).
    destruct verified; cbv beta iota zeta.
    + unfold ret, advanced. cbn [snd bump requests disk imgbb imgcdn head now].
      repeat split; try assumption; lia.
    + destruct (fallback_block p (UrlRef url) (bump w1)) as (r & w5 & Efb & Hadv).
      { cbn [bump disk now requests]. rewrite Hd, Hn. apply Hfree. }
      cbv beta zeta in Efb. rewrite Efb.
      destruct Hadv as (Hd5 & Hb5 & Hc5 & Hh5 & Hn5 & Hr5).
      unfold advanced. cbn [snd bump requests disk imgbb imgcdn head now] in *.
      repeat split; try congruence; lia.
  - unfold bind, ret, advanced. cbn [snd]. repeat split; try assumption; lia.
Qed.

(** X15: one call of [uploadToImageHost] makes at most 3 outbound requests
    and leaves the disk as it was; one call of [getAccessibleImageUrl] makes
    at most 7 (3 per upload attempt and one verification) and, when the
    name of its temporary copy is not taken, leaves the disk as it was
    found. *)
Theorem publisher_budget_and_frame (p : string) (w : World) :
  (requests (uploadToImageHost base64 p w).2 <= requests w + 3)%nat /\
  (disk (uploadToImageHost base64 p w).2 = disk w) /\
  ((forall n, disk w !! temp_path (now w n) = None) ->
   (requests (getAccessibleImageUrl base64 UPLOADS_DIR p w).2 <= requests w + 7)%nat /\
   disk (getAccessibleImageUrl base64 UPLOADS_DIR p w).2 = disk w).
Proof.
  pose proof (uploadToImageHost_advances p w) as Hup.
  split; [apply Hup | split; [apply Hup|]].
  intros Hfree.
  pose proof (getAccessibleImageUrl_advances p w Hfree) as Hget.
  split; apply Hget.
Qed.

(** X16: [uploadToImageHost] returns a URL only when the primary host gave
    it and the HEAD request that follows answered with a status in
    200..299, or when the secondary host gave it. *)
Theorem returned_url_comes_from_a_host (p url : string) (w w' : World) :
  uploadToImageHost base64 p w = (Ok (UrlRef url), w') ->
  (imgbb w (requests w) = PostUrl url /\
   exists status, head w (S (requests w)) url = HeadStatus status /\
                  200 <= status < 300) \/
  (exists n, imgcdn w n = PostUrl url /\ url <> EmptyString).
Proof.
  unfold uploadToImageHost, try_catch, bind, ret, throw, readFile,
    Encoder.readFile, post_imgbb, post_imgcdn, axios_head.
  destruct (disk w !! p) as [content|]; cbn; [|discriminate].
  destruct (imgbb w (requests w)) as [u| |m] eqn:Hbb; cbn.
  - destruct (head w (S (requests w)) u) as [status|m] eqn:Hh; cbn.
    + destruct ((200 <=? status) && (status <? 300)) eqn:E; cbn; rewrite ?E; cbn.
      * intros [= <- <-]. left. split; [reflexivity|]. exists status.
        split; [exact Hh|]. apply andb_true_iff in E as [E1 E2]. lia.
      * destruct (imgcdn w (S (S (requests w)))) as [[|c u']| |m'] eqn:Hcdn; cbn;
          try discriminate.
        intros [= <- <-]. right. eexists. split; [exact Hcdn | discriminate].
    + destruct (imgcdn w (S (S (requests w)))) as [[|c u']| |m'] eqn:Hcdn; cbn;
        try discriminate.
      intros [= <- <-]. right. eexists. split; [exact Hcdn | discriminate].
  - destruct (imgcdn w (S (requests w))) as [[|c u']| |m'] eqn:Hcdn; cbn;
      try discriminate.
    intros [= <- <-]. right. eexists. split; [exact Hcdn | discriminate].
  - destruct (imgcdn w (S (requests w))) as [[|c u']| |m'] eqn:Hcdn; cbn;
      try discriminate.
    intros [= <- <-]. right. eexists. split; [exact Hcdn | discriminate].
Qed.

End WithNode.

(** A world whose primary host works and whose URLs answer 200. *)
Definition online (d : gmap string string) : World :=
  mkWorld d 0
    (fun _ => PostUrl "https://i.ibb.co/abc/image.png")
    (fun _ => PostFails "connect ETIMEDOUT")
    (fun _ _ => HeadStatus 200)
    (fun _ => 1700000000000).

Lemma publisher_budget_and_frame_witness :
  (forall n, disk (online {[ "/data/uploads/car.png" := "PNGDATA" ]})
             !! temp_path "/data/uploads"
                  (now (online {[ "/data/uploads/car.png" := "PNGDATA" ]}) n) = None) /\
  disk (getAccessibleImageUrl plain "/data/uploads" "/data/uploads/car.png"
          (online {[ "/data/uploads/car.png" := "PNGDATA" ]})).2
  = disk (online {[ "/data/uploads/car.png" := "PNGDATA" ]}).
Proof.
  assert (Hfree : forall n,
    disk (online {[ "/data/uploads/car.png" := "PNGDATA" ]})
      !! temp_path "/data/uploads"
           (now (online {[ "/data/uploads/car.png" := "PNGDATA" ]}) n) = None).
  { intros n. apply lookup_singleton_ne.
    unfold temp_path, in_uploads. cbn [String.append]. discriminate. }
  split; [exact Hfree|].
  apply (publisher_budget_and_frame plain "/data/uploads" "/data/uploads/car.png"
           (online {[ "/data/uploads/car.png" := "PNGDATA" ]})).
  exact Hfree.
Defined.

Lemma returned_url_comes_from_a_host_witness :
  imgbb (online {[ "/data/uploads/car.png" := "PNGDATA" ]}) 0%nat
    = PostUrl "https://i.ibb.co/abc/image.png" /\
  exists status,
    head (online {[ "/data/uploads/car.png" := "PNGDATA" ]}) 1%nat
         "https://i.ibb.co/abc/image.png" = HeadStatus status /\
    200 <= status < 300.
Proof.
  destruct (returned_url_comes_from_a_host plain "/data/uploads/car.png"
              "https://i.ibb.co/abc/image.png"
              (online {[ "/data/uploads/car.png" := "PNGDATA" ]})
              (bump (bump (online {[ "/data/uploads/car.png" := "PNGDATA" ]}))))
    as [H | (n & Hn & _)].
  - unfold uploadToImageHost, try_catch, bind, readFile, Encoder.readFile.
    cbn [online disk]. rewrite lookup_singleton_eq. reflexivity.
  - exact H.
  - discriminate.
Defined.

End PublisherEffects.

(** ** Hourly sweep of the uploads directory ([cleanupOldFiles],
       server.js 274-292) *)

Module Uploads.

Definition ONE_HOUR : Z := 60 * 60 * 1000.

(** The directory maps each file name to its modification time in
    milliseconds (a whole number here).  [stale] is the test of the loop. *)
Definition stale (now mtime : Z) : bool := ONE_HOUR <? now - mtime.

(** The loop over the listing.  [stat] throws for a name that is not in the
    directory and [unlink] throws for a name in [locked]; either error
    leaves the loop, and the catch block of the function only logs it. *)
Fixpoint sweep (now : Z) (locked : string -> bool) (listing : list string)
    (files : gmap string Z) : gmap string Z :=
  match listing with
  | [] => files
  | file :: rest =>
      match files !! file with
      | None => files
      | Some mtime =>
          if stale now mtime then
            if locked file then files
            else sweep now locked rest (delete file files)
          else sweep now locked rest files
      end
  end.

(** [cleanupOldFiles]: [listing] is what [readdir] returns, [None] when it
    throws. *)
Definition cleanupOldFiles (now : Z) (locked : string -> bool)
    (listing : option (list string)) (files : gmap string Z) : gmap string Z :=
  match listing with
  | None => files
  | Some names => sweep now locked names files
  end.

Lemma sweep_keeps_fresh (now : Z) (locked : string -> bool) (listing : list string) :
  forall files f mtime,
    files !! f = Some mtime -> stale now mtime = false ->
    sweep now locked listing files !! f = Some mtime.
Proof.
  induction listing as [|file rest IH]; intros files f mtime Hf Hfresh; [exact Hf|].
  cbn [sweep]. destruct (files !! file) as [m|] eqn:Hfile; [|exact Hf].
  destruct (stale now m) eqn:Hm.
  - destruct (locked file); [exact Hf|].
    apply IH; [|exact Hfresh].
    rewrite lookup_delete_ne; [exact Hf|]. intros ->. congruence.
  - now apply IH.
Qed.

Lemma sweep_only_deletes (now : Z) (locked : string -> bool) (listing : list string) :
  forall files f mtime,
    sweep now locked listing files !! f = Some mtime -> files !! f = Some mtime.
Proof.
  induction listing as [|file rest IH]; intros files f mtime Hf; [exact Hf|].
  cbn [sweep] in Hf. destruct (files !! file) as [m|] eqn:Hfile; [|exact Hf].
  destruct (stale now m).
  - destruct (locked file); [exact Hf|].
    apply IH in Hf. apply lookup_delete_Some in Hf as [_ Hf]. exact Hf.
  - now apply IH.
Qed.

Lemma sweep_removes_stale (now : Z) (locked : string -> bool) (listing : list string) :
  forall files,
    NoDup listing ->
    (forall name, name ∈ listing -> is_Some (files !! name)) ->
    (forall name, name ∈ listing -> locked name = false) ->
    forall f mtime,
      f ∈ listing -> sweep now locked listing files !! f = Some mtime ->
      stale now mtime = false.
Proof.
  induction listing as [|file rest IH]; intros files Hnd Hall Hfree f mtime Hin Hf.
  - now apply elem_of_nil in Hin.
  - apply NoDup_cons in Hnd as [Hnotin Hnd]. cbn [sweep] in Hf.
    destruct (Hall file) as [m Hfile]; [left|]. rewrite Hfile in Hf.
    assert (Hrest : forall files' : gmap string Z,
      (forall name, name ∈ rest -> files' !! name = files !! name) ->
      forall name, name ∈ rest -> is_Some (files' !! name)).
    { intros files' Hsame name Hname. rewrite Hsame by exact Hname.
      apply Hall. now right. }
    destruct (stale now m) eqn:Hm.
    + rewrite (Hfree file) in Hf by left.
      apply elem_of_cons in Hin as [->|Hin].
      * apply sweep_only_deletes in Hf. now rewrite lookup_delete_eq in Hf.
      * apply (IH (delete file files)) with (f := f); try assumption.
        -- apply Hrest. intros name Hname. apply lookup_delete_ne.
           intros ->. contradiction.
        -- intros name Hname. apply Hfree. now right.
    + apply elem_of_cons in Hin as [->|Hin].
      * apply sweep_only_deletes in Hf. congruence.
      * apply (IH files) with (f := f); try assumption.
        -- apply Hrest. reflexivity.
        -- intros name Hname. apply Hfree. now right.
Qed.

(** X17: whatever the listing is and whichever calls fail, the sweep deletes
    no file that was modified within the last hour, and it changes no
    modification time: every file it leaves is a file that was there. *)
Theorem cleanup_never_deletes_fresh_files (now : Z) (locked : string -> bool)
    (listing : option (list string)) (files : gmap string Z) (f : string) (mtime : Z) :
  (files !! f = Some mtime -> now - mtime <= ONE_HOUR ->
   cleanupOldFiles now locked listing files !! f = Some mtime) /\
  (cleanupOldFiles now locked listing files !! f = Some mtime ->
   files !! f = Some mtime).
Proof.
  unfold cleanupOldFiles. split.
  - intros Hf Hfresh. destruct listing as [names|]; [|exact Hf].
    apply sweep_keeps_fresh; [exact Hf|]. unfold stale. apply Z.ltb_ge. lia.
  - destruct listing as [names|]; [|tauto]. apply sweep_only_deletes.
Qed.

(** X18: when [readdir] lists every file of the directory once, every
    listed file is still there and none is locked, no file older than one
    hour is left after the sweep. *)
Theorem cleanup_removes_every_stale_file (now : Z) (locked : string -> bool)
    (names : list string) (files : gmap string Z) :
  NoDup names ->
  (forall name, name ∈ names <-> is_Some (files !! name)) ->
  (forall name, name ∈ names -> locked name = false) ->
  forall f mtime,
    cleanupOldFiles now locked (Some names) files !! f = Some mtime ->
    now - mtime <= ONE_HOUR.
Proof.
  intros Hnd Hall Hfree f mtime Hf. cbn [cleanupOldFiles] in Hf.
  assert (Hin : f ∈ names).
  { apply Hall. apply sweep_only_deletes in Hf. eauto. }
  pose proof (sweep_removes_stale now locked names files Hnd
                (fun name H => proj1 (Hall name) H) Hfree f mtime Hin Hf) as Hs.
  unfold stale in Hs. apply Z.ltb_ge in Hs. lia.
Qed.

(** Two uploads, one of them two hours old. *)
Definition two_uploads : gmap string Z :=
  {[ "old.png" := 1700000000000; "new.png" := 1700007000000 ]}.

Example sweep_two_uploads :
  cleanupOldFiles 1700007200000 (fun _ => false) (Some ["old.png"; "new.png"]) two_uploads
  = {[ "new.png" := 1700007000000 ]}.
Proof. vm_compute. reflexivity. Qed.

Lemma two_uploads_listed (name : string) :
  name ∈ ["old.png"; "new.png"] <-> is_Some (two_uploads !! name).
Proof.
  rewrite <- elem_of_dom. unfold two_uploads.
  rewrite dom_insert_L, dom_singleton_L. set_solver.
Qed.

Lemma cleanup_removes_every_stale_file_witness :
  cleanupOldFiles 1700007200000 (fun _ => false) (Some ["old.png"; "new.png"])
                  two_uploads !! "new.png" = Some 1700007000000 /\
  1700007200000 - 1700007000000 <= ONE_HOUR.
Proof.
  assert (Hf : cleanupOldFiles 1700007200000 (fun _ => false)
                 (Some ["old.png"; "new.png"]) two_uploads !! "new.png"
               = Some 1700007000000) by (vm_compute; reflexivity).
  split; [exact Hf|].
  apply (cleanup_removes_every_stale_file 1700007200000 (fun _ => false)
           ["old.png"; "new.png"] two_uploads) with (f := "new.png");
    [ repeat constructor; set_solver
    | exact two_uploads_listed
    | reflexivity
    | exact Hf ].
Defined.

Lemma cleanup_never_deletes_fresh_files_witness :
  two_uploads !! "new.png" = Some 1700007000000 /\
  cleanupOldFiles 1700007200000 (fun _ => true) None two_uploads !! "new.png"
  = Some 1700007000000.
Proof.
  assert (Hf : two_uploads !! "new.png" = Some 1700007000000)
    by (vm_compute; reflexivity).
  split; [exact Hf|].
  apply (proj1 (cleanup_never_deletes_fresh_files 1700007200000 (fun _ => true) None
                  two_uploads "new.png" 1700007000000) Hf).
  unfold ONE_HOUR. lia.
Defined.

(** A file that cannot be deleted stops the sweep: the stale file listed
    after it stays. *)
Example locked_file_stops_sweep :
  cleanupOldFiles 1800000000000 (fun name => bool_decide (name = "new.png"))
                  (Some ["new.png"; "old.png"]) two_uploads
  = two_uploads.
Proof. vm_compute. reflexivity. Qed.

End Uploads.

(** ** Aspect ratios ([ASPECT_RATIO_MAP], [VALID_ASPECT_RATIOS],
       [getValidAspectRatio]; server.js 118-144) *)

Module AspectRatio.

Definition ASPECT_RATIO_MAP : list (string * string) :=
  [ ("square", "1:1"); ("portrait", "3:4"); ("landscape", "4:3");
    ("widescreen", "16:9"); ("ultrawide", "9:16") ].

Definition VALID_ASPECT_RATIOS : list string :=
  [ "1:1"; "16:9"; "3:2"; "2:3"; "4:5"; "5:4"; "9:16"; "3:4"; "4:3"; "custom" ].

(** [VALID_ASPECT_RATIOS.includes(x)]. *)
Definition is_valid (x : string) : bool := bool_decide (x ∈ VALID_ASPECT_RATIOS).

(** [ASPECT_RATIO_MAP[name]] for the keys of the object itself.  A name the
    object inherits ([constructor], [toString], ...) gives a value that is
    no string and not in the list, which the function treats as a missing
    one. *)
Fixpoint mapped_ratio (name : string) (table : list (string * string)) : option string :=
  match table with
  | [] => None
  | (k, v) :: rest => if decide (k = name) then Some v else mapped_ratio name rest
  end.

Definition getValidAspectRatio (rawAspectRatio : string) : string :=
  if is_valid rawAspectRatio then rawAspectRatio
  else
    match mapped_ratio rawAspectRatio ASPECT_RATIO_MAP with
    | Some (String c r as mappedRatio) =>
        if is_valid mappedRatio then mappedRatio else "1:1"
    | _ => "1:1"
    end.

(** X19: for every input the result is one of the supported aspect ratios;
    a supported ratio is returned as it is, so applying the function twice
    changes nothing. *)
Theorem valid_aspect_ratio_always (rawAspectRatio : string) :
  getValidAspectRatio rawAspectRatio ∈ VALID_ASPECT_RATIOS /\
  (rawAspectRatio ∈ VALID_ASPECT_RATIOS ->
   getValidAspectRatio rawAspectRatio = rawAspectRatio) /\
  getValidAspectRatio (getValidAspectRatio rawAspectRatio)
  = getValidAspectRatio rawAspectRatio.
Proof.
  assert (Hfix : forall x, x ∈ VALID_ASPECT_RATIOS -> getValidAspectRatio x = x).
  { intros x Hx. unfold getValidAspectRatio, is_valid.
    rewrite bool_decide_eq_true_2 by exact Hx. reflexivity. }
  assert (Hin : getValidAspectRatio rawAspectRatio ∈ VALID_ASPECT_RATIOS).
  { unfold getValidAspectRatio, is_valid.
    case_bool_decide as Hv; [exact Hv|].
    destruct (mapped_ratio rawAspectRatio ASPECT_RATIO_MAP) as [[|c r]|];
      [| case_bool_decide as Hm; [exact Hm|] |];
      unfold VALID_ASPECT_RATIOS; repeat constructor. }
  split; [exact Hin|]. split; [exact (Hfix rawAspectRatio)|]. now apply Hfix.
Qed.

Example ratio_named : getValidAspectRatio "widescreen" = "16:9".
Proof. reflexivity. Qed.

Example ratio_unknown : getValidAspectRatio "panorama" = "1:1".
Proof. reflexivity. Qed.

End AspectRatio.

(** ** Reference image of [/api/generate-skoda-illustration]
       (server.js 1258-1270) *)

Module Illustration.
Import Str.

(** The class [\w] of regular expressions. *)
Definition is_word (c : ascii) : bool :=
  let n := nat_of_ascii c in
  ((48 <=? n)%nat && (n <=? 57)%nat) || ((65 <=? n)%nat && (n <=? 90)%nat)
  || ((97 <=? n)%nat && (n <=? 122)%nat) || (n =? 95)%nat.

(** [s] without the prefix [p], when it starts with it. *)
Fixpoint strip_prefix (p s : string) : option string :=
  match p, s with
  | EmptyString, _ => Some s
  | String a p', String b s' => if decide (a = b) then strip_prefix p' s' else None
  | String _ _, EmptyString => None
  end.

Fixpoint drop_word (s : string) : string :=
  match s with
  | String c s' => if is_word c then drop_word s' else s
  | EmptyString => EmptyString
  end.

(** [s.replace(/^data:image\/\w+;base64,/, '')]: the run of word characters
    ends at the first character that is not one, where [;base64,] has to
    follow. *)
Definition strip_data_header (s : string) : string :=
  match strip_prefix "data:image/" s with
  | Some (String c rest) =>
      if is_word c then
        match strip_prefix ";base64," (drop_word rest) with
        | Some tail => tail
        | None => s
        end
      else s
  | _ => s
  end.

(** The value of [modelInput.image] for a given [settings.image]; [None]
    when the field is not set (a missing or empty image). *)
Definition model_image (image : string) : option string :=
  match image with
  | EmptyString => None
  | _ =>
      let imageUri :=
        if startsWith image "data:image/" then image
        else "data:image/jpeg;base64," +:+ strip_data_header image in
      match imageUri with
      | EmptyString => None
      | _ => Some imageUri
      end
  end.

Lemma strip_prefix_startsWith (p s rest : string) :
  strip_prefix p s = Some rest -> startsWith s p = true.
Proof.
  revert s. induction p as [|a p IH]; intros [|b s] H; cbn in *;
    try reflexivity; try discriminate.
  destruct (decide (a = b)) as [->|]; [|discriminate].
  rewrite decide_True by reflexivity. now apply IH.
Qed.

Lemma strip_data_header_id (s : string) :
  startsWith s "data:image/" = false -> strip_data_header s = s.
Proof.
  intros Hs. unfold strip_data_header.
  destruct (strip_prefix "data:image/" s) as [rest|] eqn:E; [|reflexivity].
  apply strip_prefix_startsWith in E. congruence.
Qed.

(** X20: an image that is set always goes to the model as a [data:image/]
    URI: one that already starts with [data:image/] is passed as it is, and
    any other gets [data:image/jpeg;base64,] put in front of it unchanged
    (the header-stripping replace never applies to it). *)
Theorem model_image_is_data_uri (image : string) :
  image <> EmptyString ->
  exists imageUri,
    model_image image = Some imageUri /\
    startsWith imageUri "data:image/" = true /\
    (startsWith image "data:image/" = true -> imageUri = image) /\
    (startsWith image "data:image/" = false ->
     imageUri = "data:image/jpeg;base64," +:+ image).
Proof.
  intros Hne. unfold model_image.
  destruct image as [|c image]; [congruence|].
  destruct (startsWith (String c image) "data:image/") eqn:Hs.
  - exists (String c image). repeat split; try assumption; try reflexivity.
    discriminate.
  - rewrite strip_data_header_id by exact Hs.
    eexists. split; [reflexivity|]. split; [reflexivity|].
    split; [discriminate | reflexivity].
Qed.

Lemma model_image_is_data_uri_witness :
  "iVBORw0KGgo" <> EmptyString /\
  exists imageUri,
    model_image "iVBORw0KGgo" = Some imageUri /\
    startsWith imageUri "data:image/" = true /\
    (startsWith "iVBORw0KGgo" "data:image/" = true -> imageUri = "iVBORw0KGgo") /\
    (startsWith "iVBORw0KGgo" "data:image/" = false ->
     imageUri = "data:image/jpeg;base64,iVBORw0KGgo").
Proof.
  split; [discriminate|].
  apply (model_image_is_data_uri "iVBORw0KGgo"). discriminate.
Defined.

End Illustration.

(** ** Adding and deleting thumbnail records (the metadata step of
       [POST /api/thumbnails], 1629-1658, and [DELETE /api/thumbnails/:id],
       1679-1699) *)

Module ThumbnailList.
Import Js Metadata.

(** [t.url === thumbnailUrl] for a record that is not [null]. *)
Definition has_url (thumbnailUrl : string) (t : JValue) : bool :=
  match field t "url" with
  | JStr u => bool_decide (u = thumbnailUrl)
  | _ => false
  end.

(** [thumbnails.filter(t => t.url !== thumbnailUrl)] on the elements of an
    array; reading [url] of [null] throws. *)
Fixpoint filter_records (thumbnailUrl : string) (items : list JValue)
    : Res (list JValue) :=
  match items with
  | [] => Ok []
  | t :: rest =>
      match t with
      | JNull | JUndefined => Throw "Cannot read properties of null (reading 'url')"
      | _ =>
          match filter_records thumbnailUrl rest with
          | Throw message => Throw message
          | Ok kept => Ok (if has_url thumbnailUrl t then kept else t :: kept)
          end
      end
  end.

Definition deleted_message : Body :=
  JsonBody (JObj [("message", JStr "Thumbnail deleted successfully")]).

Definition delete_failed : Response :=
  mkResponse 500 (ErrorBody "Failed to delete thumbnail").

(** A value of the file that is a record: not [null]. *)
Definition is_record (t : JValue) : Prop :=
  match t with
  | JNull | JUndefined => False
  | _ => True
  end.

Section WithJson.

Variable parse : string -> option JValue.
Variable stringify : JValue -> string.

(** [DELETE /api/thumbnails/:id]: every error is answered 500 by the catch
    block; the write is not read back. *)
Definition delete_thumbnail (thumbnailUrl : string) (w : World) : Response * World :=
  match read_thumbnails parse w with
  | Throw _ => (delete_failed, w)
  | Ok (JArr items) =>
      match filter_records thumbnailUrl items with
      | Throw _ => (delete_failed, w)
      | Ok updatedThumbnails =>
          match writeFile (stringify (JArr updatedThumbnails)) w with
          | (Ok _, w') => (mkResponse 200 deleted_message, w')
          | (Throw _, w') => (delete_failed, w')
          end
      end
  | Ok _ => (delete_failed, w)
  end.

Lemma filter_records_of_records (thumbnailUrl : string) (items : list JValue) :
  Forall is_record items ->
  filter_records thumbnailUrl items
  = Ok (List.filter (fun t => negb (has_url thumbnailUrl t)) items).
Proof.
  induction 1 as [|t rest Ht _ IH]; [reflexivity|].
  cbn [filter_records List.filter]. rewrite IH.
  destruct t; try contradiction; destruct (has_url thumbnailUrl _); reflexivity.
Qed.

(** X21: for a file that holds a list of records, the delete handler hands
    to [writeFile] exactly the records whose [url] is not the given one, in
    their order, and answers 200 whenever that write does not throw, also
    when no record had the URL; for a missing or unparsable file it answers
    500 and writes nothing. *)
Theorem delete_writes_the_other_records (thumbnailUrl : string) (w : World) :
  (forall items,
     read_thumbnails parse w = Ok (JArr items) -> Forall is_record items ->
     handed (delete_thumbnail thumbnailUrl w).2
     = (handed w ++
        [stringify (JArr (List.filter (fun t => negb (has_url thumbnailUrl t)) items))])%list /\
     ((forall message, outcome w (List.length (handed w)) <> WriteFails message) ->
      (delete_thumbnail thumbnailUrl w).1 = mkResponse 200 deleted_message)) /\
  (forall message, read_thumbnails parse w = Throw message ->
     delete_thumbnail thumbnailUrl w = (delete_failed, w)).
Proof.
  split.
  - intros items Hread Hrec. unfold delete_thumbnail. rewrite Hread.
    rewrite (filter_records_of_records _ _ Hrec). unfold writeFile.
    destruct (outcome w (List.length (handed w))) as [| m |other] eqn:Ho; cbn.
    + split; reflexivity.
    + split; [reflexivity|]. intros Hno. now destruct (Hno m).
    + split; reflexivity.
  - intros message Hread. unfold delete_thumbnail. now rewrite Hread.
Qed.



End WithJson.

(** A file that holds two records, for a stand-in parser that knows this
    one content. *)
Definition record_a : JValue := JObj [("url", JStr "http://localhost:5000/ThumbnailImages/a.png")].
Definition record_b : JValue := JObj [("url", JStr "http://localhost:5000/ThumbnailImages/b.png")].

Definition parse_two_records (s : string) : option JValue :=
  if decide (s = "[a,b]") then Some (JArr [record_a; record_b]) else None.

Definition two_records : World := mkWorld (Some "[a,b]") (fun _ => Written) [].

Lemma delete_writes_the_other_records_witness :
  read_thumbnails parse_two_records two_records = Ok (JArr [record_a; record_b]) /\
  (delete_thumbnail parse_two_records stringify_empty_array
     "http://localhost:5000/ThumbnailImages/a.png" two_records).1
  = mkResponse 200 deleted_message.
Proof.
  split; [reflexivity|].
  apply (proj1 (delete_writes_the_other_records parse_two_records stringify_empty_array
                  "http://localhost:5000/ThumbnailImages/a.png" two_records)
               [record_a; record_b] eq_refl).
  - repeat constructor.
  - intros message. discriminate.
Defined.


End ThumbnailList.

(** ** What the archiver asks for, and what it leaves behind
       ([downloadAndSaveImage], server.js 1364-1463) *)

Module ArchiverEdges.
Import Str Archiver.

(** The only effects a call for [imageUrl] may have: a request for the URL
    itself, a request for its alternate-host form when it is a
    replicate.delivery URL, and a sleep of two seconds. *)
Definition allowed_effect (imageUrl : string) (e : Effect) : Prop :=
  match e with
  | RequestPrimary url => url = imageUrl
  | RequestAlternate url =>
      includes imageUrl "replicate.delivery" = true /\
      url = replace_first "replicate.delivery" "replicate.com" imageUrl
  | Sleep ms => ms = 2000
  end.

Lemma download_loop_effects (w : World) (imageUrl : string) (remaining : nat) :
  forall response,
    Forall (allowed_effect imageUrl) (download_loop w imageUrl remaining response).2.
Proof.
  induction remaining as [|remaining IH]; intros response; [constructor|].
  cbn [download_loop].
  destruct (primary w (maxRetries - S remaining)) as [status data|message].
  - destruct (status =? 200); [repeat constructor|].
    specialize (IH (Some (status, data))).
    destruct (download_loop w imageUrl remaining (Some (status, data))) as [r es].
    cbn [snd] in *. repeat constructor. exact IH.
  - destruct (includes imageUrl "replicate.delivery") eqn:Hinc;
      [destruct (alternate w (maxRetries - S remaining)) as [status data|message'];
       [destruct ((200 <=? status) && (status <? 300));
        [destruct (status =? 200)|]|]|];
      try (cbn [snd]; repeat constructor; assumption);
      (destruct remaining as [|remaining'];
       [cbn [snd]; repeat constructor; assumption|]);
      match goal with
      | |- context [download_loop w imageUrl (S remaining') ?resp] =>
          specialize (IH resp);
          destruct (download_loop w imageUrl (S remaining') resp) as [r es]
      end;
      cbn [snd app] in *; repeat constructor; assumption.
Qed.

Section WithDirectory.

Variable THUMBNAIL_DIR : string.

(** X23: whatever the network does, the archiver requests nothing but the
    URL it was given and, for a URL on replicate.delivery, the same URL on
    replicate.com; for any other URL the alternate host is never asked. *)
Theorem archiver_requests_only_its_url (w : World) (imageUrl : string) :
  Forall (allowed_effect imageUrl) (downloadAndSaveImage THUMBNAIL_DIR w imageUrl).2.
Proof.
  unfold downloadAndSaveImage.
  destruct (thumbnail_dir_ok w); [|constructor].
  destruct (includes imageUrl "ThumbnailImages" && _); [constructor|].
  unfold download_and_save.
  pose proof (download_loop_effects w imageUrl maxRetries None) as H.
  destruct (download_loop w imageUrl maxRetries None) as [[[[s d]|]|m] es];
    cbn [snd] in *; repeat case_match; simplify_eq; exact H.
Qed.


End WithDirectory.



Example other_host_has_no_alternate :
  (downloadAndSaveImage "/data/thumbnails"
     (mkWorld ∅ true (fun _ => Fails "socket hang up") (fun _ => Responds 200 "PNG")
              1700000000000 "k3x9q")
     "https://example.com/out.png").2
  = [RequestPrimary "https://example.com/out.png"; Sleep 2000;
     RequestPrimary "https://example.com/out.png"; Sleep 2000;
     RequestPrimary "https://example.com/out.png"].
Proof. vm_compute. reflexivity. Qed.

End ArchiverEdges.

(** ** Size of a sanitised prompt ([sanitizePrompt], server.js 242-272) *)

Module SanitizeBounds.
Import Str Sanitize.

Lemma length_append (a b : string) :
  String.length (a +:+ b) = (String.length a + String.length b)%nat.
Proof.
  induction a as [|c a IH]; simpl; [reflexivity | now rewrite IH].
Qed.

Lemma length_trimStart (s : string) :
  (String.length (trimStart s) <= String.length s)%nat.
Proof.
  induction s as [|c s IH]; cbn; [lia|]. destruct (is_space c); cbn; lia.
Qed.

Lemma length_trimEnd (s : string) :
  (String.length (trimEnd s) <= String.length s)%nat.
Proof.
  induction s as [|c s IH]; cbn; [lia|].
  destruct (trimEnd s) as [|d r]; [destruct (is_space c)|]; cbn in *; lia.
Qed.

Lemma length_collapse_from (in_run : bool) (s : string) :
  (String.length (collapse_from in_run s) <= String.length s)%nat.
Proof.
  revert in_run. induction s as [|c s IH]; intros in_run; cbn; [lia|].
  pose proof (IH true). pose proof (IH false).
  destruct (is_space c); [destruct in_run|]; cbn; lia.
Qed.

Lemma length_remove_ci_from (phrase s : string) :
  forall skip,
    (String.length (remove_ci_from skip phrase s) <= String.length s)%nat.
Proof.
  induction s as [|c s IH]; intros skip; cbn [remove_ci_from]; [cbn; lia|].
  destruct skip as [|k].
  - destruct (startsWith_ci (String c s) phrase); cbn.
    + specialize (IH (Nat.pred (String.length phrase))). lia.
    + specialize (IH O). lia.
  - specialize (IH k). cbn. lia.
Qed.

Lemma length_remove_ci (phrase s : string) :
  (String.length (remove_ci phrase s) <= String.length s)%nat.
Proof.
  unfold remove_ci. destruct phrase; [lia | apply length_remove_ci_from].
Qed.

Lemma length_remove_all (phrases : list string) :
  forall s,
    (String.length (fold_left (fun acc phrase => remove_ci phrase acc) phrases s)
     <= String.length s)%nat.
Proof.
  induction phrases as [|phrase rest IH]; intros s; cbn [fold_left]; [lia|].
  specialize (IH (remove_ci phrase s)).
  pose proof (length_remove_ci phrase s). lia.
Qed.

(** X25: sanitising never makes a prompt longer than the prompt plus the 24
    characters of the suffix ', high quality, detailed': trimming,
    collapsing white space and removing banned phrases only shorten it. *)
Theorem sanitized_prompt_length (prompt : string) :
  (String.length (sanitizePrompt prompt) <= String.length prompt + 24)%nat.
Proof.
  unfold sanitizePrompt. destruct prompt as [|c rest]; [cbn; lia|].
  cbv beta iota zeta. remember (String c rest) as p eqn:Hp. clear Hp.
  pose proof (length_remove_all bannedPhrases (collapse_spaces (trim p))) as H1.
  pose proof (length_collapse_from false (trim p)) as H2.
  fold (collapse_spaces (trim p)) in H2.
  pose proof (length_trimEnd (trimStart p)) as H3. fold (trim p) in H3.
  pose proof (length_trimStart p) as H4.
  destruct (hasQualityTerm _); [lia|].
  rewrite length_append. cbn [String.length]. lia.
Qed.

End SanitizeBounds.

(** ** Saving the image of a new thumbnail (the retry loop of
       [POST /api/thumbnails], server.js 1587-1616) *)

Module ThumbnailAcquire.
Import Str Archiver.

(** The outside over the calls of [downloadAndSaveImage] that one request
    makes: what call number [k] meets, and the size [stat] reports for the
    thumbnail directory itself. *)
Record Session := mkSession {
  dir_ok : nat -> bool;
  primary_of : nat -> nat -> Download;
  alternate_of : nat -> nat -> Download;
  now_of : nat -> Z;
  random_of : nat -> string;
  dir_size : Z
}.

Definition world_of (s : Session) (call : nat) (d : gmap string string) : World :=
  mkWorld d (dir_ok s call) (primary_of s call) (alternate_of s call)
          (now_of s call) (random_of s call).

(** How the loop ends: with the local URL of a verified file, with the 500
    answer 'Failed to save image after multiple attempts', or by its
    condition, with no URL. *)
Inductive Acquired :=
| Got (localImageUrl : string)
| GaveUp
| NoUrl.

Section WithDirectory.

Variable THUMBNAIL_DIR : string.

(** [fsPromises.access] then [fsPromises.stat(localPath).size > 0]; [None]
    when one of them throws. *)
Definition has_content (s : Session) (d : gmap string string) (localPath : string)
    : option bool :=
  match d !! localPath with
  | Some data => Some (0 <? Z.of_nat (String.length data))
  | None =>
      if bool_decide (localPath = THUMBNAIL_DIR) then Some (0 <? dir_size s)
      else None
  end.

(** The loop; [remaining] is [maxRetries - retryCount]. *)
Fixpoint acquire (s : Session) (url : string) (remaining : nat)
    (d : gmap string string) : Acquired * gmap string string * list Effect :=
  match remaining with
  | O => (NoUrl, d, [])
  | S remaining' =>
      let call := (maxRetries - remaining)%nat in
      let '(r, d', es) := downloadAndSaveImage THUMBNAIL_DIR (world_of s call d) url in
      let verified :=
        match r with
        | Ok localImageUrl =>
            match has_content s d'
                    (in_thumbnails THUMBNAIL_DIR (last_segment localImageUrl)) with
            | Some true => Some localImageUrl
            | _ => None
            end
        | Throw _ => None
        end in
      match verified with
      | Some localImageUrl => (Got localImageUrl, d', es)
      | None =>
          match remaining' with
          | O => (GaveUp, d', es)
          | S _ =>
              let '(a, d'', es') := acquire s url remaining' d' in
              (a, d'', (es ++ Sleep 2000 :: es')%list)
          end
      end
  end.





End WithDirectory.

(** A session whose first call meets a host that fails three times and
    whose second call is served. *)
Definition second_call_works : Session :=
  mkSession (fun _ => true)
            (fun call _ => match call with
                           | O => Fails "socket hang up"
                           | _ => Responds 200 "PNGDATA"
                           end)
            (fun _ _ => Fails "Request failed with status code 404")
            (fun _ => 1700000000000) (fun _ => "k3x9q") 4096.


Example second_call_effects :
  (acquire "/data/thumbnails" second_call_works
     "https://example.com/out.png" maxRetries ∅).2
  = [RequestPrimary "https://example.com/out.png"; Sleep 2000;
     RequestPrimary "https://example.com/out.png"; Sleep 2000;
     RequestPrimary "https://example.com/out.png"; Sleep 2000;
     RequestPrimary "https://example.com/out.png"].
Proof. vm_compute. reflexivity. Qed.

End ThumbnailAcquire.

(** ** The promise chain when a call arrives during an update
       ([updatePredictionResult], server.js 1191-1212) *)

Module LockChain.
Import Js ResultStore.

Lemma enter_spec (id : string) (st : Store) :
  Tracking.locks_settled st ->
  exists lock st1,
    enter id st = (lock, st1) /\
    predictionLocks st1 !! id = Some lock /\
    settled st1 !! lock = Some true /\
    predictionResults st1 = predictionResults st.
Proof.
  intros Hinv. unfold enter.
  destruct (predictionLocks st !! id) as [l|] eqn:Hl.
  - exists l, st. repeat split; [exact Hl | exact (Hinv id l Hl)].
  - do 2 eexists. split; [reflexivity|]. cbn [predictionLocks settled predictionResults].
    split; [apply lookup_insert_eq|]. split; [|reflexivity].
    now apply list_lookup_middle.
Qed.

Definition both_queued (id : string) (f g : Result -> Res Result) (st : Store) : Machine :=
  mkMachine st [mkTask id f NotCalled; mkTask id g NotCalled] [].

Definition second_comes_late : list Job :=
  [Call 0%nat; AfterLock 0%nat; Call 1%nat].

Definition second_runs_after_first : list Job :=
  [Call 0%nat; AfterLock 0%nat; Call 1%nat;
   AfterUpdateFn 0%nat; AfterLock 1%nat; AfterUpdateFn 1%nat].

(** X27: when the second update of a key is issued while the first one is
    running its function, the promise chain does serialize them: the second
    call cannot go on before the write of the first is stored, its function
    is then called on what the first stored, and the trace is serialized. *)
Theorem late_update_waits_for_running_one (id : string)
    (f g : Result -> Res Result) (st : Store) :
  Tracking.locks_settled st ->
  (exists m1,
     run second_comes_late (both_queued id f g st) = Some m1 /\
     step (AfterLock 1%nat) m1 = None) /\
  (exists m2,
     run second_runs_after_first (both_queued id f g st) = Some m2 /\
     trace m2
     = [RanUpdateFn 0 (default processing (predictionResults st !! id));
        Stored 0 (f (default processing (predictionResults st !! id)));
        RanUpdateFn 1
          (match f (default processing (predictionResults st !! id)) with
           | Ok updated => updated
           | Throw _ => default processing (predictionResults st !! id)
           end);
        Stored 1
          (g (match f (default processing (predictionResults st !! id)) with
              | Ok updated => updated
              | Throw _ => default processing (predictionResults st !! id)
              end))] /\
     serialized (trace m2) = true).
Proof.
  intros Hinv.
  destruct (enter_spec id st Hinv) as (l0 & st1 & He & Hl1 & Hs1 & Hr1).
  assert (Hmid : (settled st1 ++ [false])%list !! List.length (settled st1) = Some false)
    by now apply list_lookup_middle.
  assert (Hset : <[List.length (settled st1) := true]> (settled st1 ++ [false])%list
                   !! List.length (settled st1) = Some true).
  { apply list_lookup_insert_eq. rewrite length_app. cbn. lia. }
  split.
  - unfold second_comes_late, both_queued. cbn [run]. unfold step at 1 2 3.
    cbn [tasks lookup list_lookup key pc updateFn store trace].
    rewrite He. cbn. rewrite Hs1. cbn.
    unfold enter. cbn. rewrite lookup_insert_eq. cbn.
    eexists. split; [reflexivity|]. cbn. rewrite Hmid. reflexivity.
  - unfold second_runs_after_first, both_queued. cbn [run]. 
    unfold step at 1. cbn [tasks lookup list_lookup key pc updateFn store trace].
    rewrite He. cbn. rewrite Hs1. cbn.
    unfold enter. cbn. rewrite lookup_insert_eq. cbn.
    rewrite Hset. cbn. rewrite Hr1.
    eexists. split; [reflexivity|]. cbn [trace].
    destruct (f (default processing (predictionResults st !! id))) as [updated|m];
      rewrite ?lookup_insert_eq; split; reflexivity.
Qed.

Lemma late_update_waits_for_running_one_witness :
  Tracking.locks_settled empty_store /\
  exists m1,
    run second_comes_late (both_queued "p1" mark_completed attach_user empty_store)
      = Some m1 /\
    step (AfterLock 1%nat) m1 = None.
Proof.
  assert (H0 : Tracking.locks_settled empty_store).
  { intros k lock Hk. vm_compute in Hk. discriminate. }
  split; [exact H0|].
  apply (late_update_waits_for_running_one "p1" mark_completed attach_user
           empty_store H0).
Defined.

End LockChain.
